(** * The Job engine of ffuf-mini (package ffuf, job.go)

    A shallow embedding of the execution core: the queue of recursion
    targets, the dispatcher, the worker [runTask], the match engine, the
    recursion handlers, the calibrator and the stop controller.

    Conventions.
    - Go's [int] is the 64-bit two's complement integer; it is a [Z] and
      every arithmetic operation of the source is followed by [wrap].
    - [time.Time] is the number of nanoseconds since Go's zero time, so
      [IsZero] is a test against 0 and [time.Since t] is [now - t].
    - The collaborators of the engine (runner, replay runner, input
      provider, output provider, clock, random source) are interfaces in
      the source.  Their behaviour is a parameter ([Env]); every call made
      on them is appended to a chronological [trace].
    - Worker goroutines are run to completion at the point where the
      dispatcher spawns them.  The progress goroutine (it only calls
      [Output.Progress] and [Rate.Adjust]), the signal handler, the pause
      barrier, the rate throttle and the delay sleep are left out: no
      signal arrives, nobody pauses, and the trace has the calls of the
      dispatcher and of the workers only.
    - [Pause], [Resume] and the signal handler are modelled a second time
      with the wait group they act on ([Barrier]), apart from the run.
    - The writer of the output file ([writeJSON] of package output,
      file_json.go) is modelled over a map from file names to contents. *)

From Stdlib Require Import ZArith Lia Bool.
From Stdlib Require Import Floats.SpecFloat.
From stdpp Require Import base list strings gmap.

Local Open Scope Z_scope.

(** ** Go integers *)

Definition int_min : Z := - 2 ^ 63.
Definition int_max : Z := 2 ^ 63 - 1.

Definition wrap (z : Z) : Z := (z + 2 ^ 63) mod 2 ^ 64 - 2 ^ 63.

Definition in_int (z : Z) : Prop := int_min <= z <= int_max.

Definition int_add (a b : Z) : Z := wrap (a + b).
Definition int_sub (a b : Z) : Z := wrap (a - b).
Definition int_mul (a b : Z) : Z := wrap (a * b).

Global Arguments wrap : simpl never.
Global Arguments int_add : simpl never.
Global Arguments int_sub : simpl never.
Global Arguments int_mul : simpl never.

(** [len(s)] of a slice. *)
Definition len {A} (s : list A) : Z := Z.of_nat (length s).

(** [s[i]]: [None] stands for the run-time panic of an index out of range. *)
Definition index {A} (s : list A) (i : Z) : option A :=
  if i <? 0 then None else s !! Z.to_nat i.

(** [s[lo:]]: panics unless [0 <= lo <= len(s)]. *)
Definition slice_from {A} (s : list A) (lo : Z) : option (list A) :=
  if (0 <=? lo) && (lo <=? len s) then Some (drop (Z.to_nat lo) s) else None.

(** ** Data model *)

Definition Time := Z.
Definition second : Z := 1000000000.

Definition InputMap := list (string * string).

Module Request.
Record t := mk { Url : string; Position : Z }.
End Request.

Module Response.
(** The response type is declared outside job.go; the engine reads its
    status code, its request and its redirect location, the latter through
    the method [GetRedirectLocation(absolute bool)]. *)
Record t := mk {
  StatusCode : Z;
  Request : Request.t;
  GetRedirectLocation : bool -> string }.
End Response.

(** The result of a Go call returning [(T, error)]: both components are
    always present, [None] is the nil error. *)
Definition error := option string.

Module FilterProvider.
Record t := mk { Filter : Response.t -> bool * error }.
End FilterProvider.

Module QueueJob.
Record t := mk { Url : string; depth : Z }.
End QueueJob.

Module Config.
Record t := mk {
  Url : string;
  Threads : Z;
  Quiet : bool;
  Matchers : list FilterProvider.t;
  Filters : list FilterProvider.t;
  Recursion : bool;
  RecursionStrategy : string;
  RecursionDepth : Z;
  StopOn403 : bool;
  StopOnErrors : bool;
  StopOnAll : bool;
  MaxTime : Z;
  MaxTimeJob : Z;
  AutoCalibrationStrings : list string;
  InputProviders : list string  (* the keywords *) }.

Definition set_Url (u : string) (c : t) : t :=
  mk u (Threads c) (Quiet c) (Matchers c) (Filters c) (Recursion c)
     (RecursionStrategy c) (RecursionDepth c) (StopOn403 c) (StopOnErrors c)
     (StopOnAll c) (MaxTime c) (MaxTimeJob c) (AutoCalibrationStrings c)
     (InputProviders c).
End Config.

Module Progress.
Record t := mk {
  StartedAt : Time;
  ReqCount : Z;
  ReqTotal : Z;
  ReqSec : Z;
  QueuePos : Z;
  QueueTotal : Z;
  ErrorCount : Z }.
End Progress.

(** Calls made on the collaborators, as they appear in the trace. *)
Inductive Event : Type :=
  | OutBanner
  | OutProgress (p : Progress.t)
  | OutResult (r : Response.t)
  | OutInfo (s : string)
  | OutWarning (s : string)
  | OutError (s : string)
  | OutReset
  | OutCycle
  | OutFinalize
  | InputReset
  | MakeFreeMemory (r : Response.t)
  | ConfigCancel
  | LogPrintf (s : string).

(** The data fields of the Go struct [Job].  The mutex, the wait group and
    the interface values (Input, Runner, ReplayRunner, Output, Rate) are the
    collaborators, see [Env] and [World]. *)
Record Job := mkJob {
  Config : Config.t;
  Counter : Z;
  ErrorCounter : Z;
  SpuriousErrorCounter : Z;
  Total : Z;
  Running : bool;
  RunningJob : bool;
  Paused : bool;
  Count403 : Z;
  Count429 : Z;
  Error : string;
  startTime : Time;
  startTimeJob : Time;
  queuejobs : list QueueJob.t;
  queuepos : Z;
  skipQueue : bool;
  currentDepth : Z }.

Module RunnerProvider.
(** [Prepare] and [Execute] of a runner; the first argument is the number
    of calls already made on this runner, so that a runner may fail once
    and succeed when asked again.  A runner is built on the [*Config] of
    the job: [Prepare] reads the configuration as it is at the call. *)
Record t := mk {
  Prepare : nat -> Config.t -> InputMap -> Request.t * error;
  Execute : nat -> Request.t -> Response.t * error }.
End RunnerProvider.

(** The behaviour of the collaborators. *)
Record Env := mkEnv {
  Runner : RunnerProvider.t;
  ReplayRunner : option RunnerProvider.t;      (* [None] is the nil interface *)
  wordlist : list InputMap;                    (* the data behind Input *)
  clock : nat -> Time;                         (* the n-th reading of time.Now *)
  FinalizeResult : nat -> error;               (* of the n-th Output.Finalize *)
  CurrentRate : nat -> Z;                      (* Rate.CurrentRate *)
  RandomString : nat -> Z -> string            (* the n-th RandomString(k) *) }.

(** The mutable state of the collaborators. *)
Record World := mkWorld {
  trace : list Event;       (* oldest call first *)
  inputPos : Z;             (* cursor of the input provider *)
  runnerCalls : nat;
  replayCalls : nat;
  clockReads : nat;
  randCalls : nat }.

Record State := mkState { job : Job; world : World }.

(** ** Field updates *)

Definition set_Config (v : Config.t) (j : Job) : Job :=
  mkJob v (Counter j) (ErrorCounter j) (SpuriousErrorCounter j) (Total j)
    (Running j) (RunningJob j) (Paused j) (Count403 j) (Count429 j)
    (Error j) (startTime j) (startTimeJob j) (queuejobs j) (queuepos j)
    (skipQueue j) (currentDepth j).

Definition set_Counter (v : Z) (j : Job) : Job :=
  mkJob (Config j) v (ErrorCounter j) (SpuriousErrorCounter j) (Total j)
    (Running j) (RunningJob j) (Paused j) (Count403 j) (Count429 j)
    (Error j) (startTime j) (startTimeJob j) (queuejobs j) (queuepos j)
    (skipQueue j) (currentDepth j).

Definition set_ErrorCounter (v : Z) (j : Job) : Job :=
  mkJob (Config j) (Counter j) v (SpuriousErrorCounter j) (Total j)
    (Running j) (RunningJob j) (Paused j) (Count403 j) (Count429 j)
    (Error j) (startTime j) (startTimeJob j) (queuejobs j) (queuepos j)
    (skipQueue j) (currentDepth j).

Definition set_SpuriousErrorCounter (v : Z) (j : Job) : Job :=
  mkJob (Config j) (Counter j) (ErrorCounter j) v (Total j) (Running j)
    (RunningJob j) (Paused j) (Count403 j) (Count429 j) (Error j)
    (startTime j) (startTimeJob j) (queuejobs j) (queuepos j) (skipQueue j)
    (currentDepth j).

Definition set_Total (v : Z) (j : Job) : Job :=
  mkJob (Config j) (Counter j) (ErrorCounter j) (SpuriousErrorCounter j) v
    (Running j) (RunningJob j) (Paused j) (Count403 j) (Count429 j)
    (Error j) (startTime j) (startTimeJob j) (queuejobs j) (queuepos j)
    (skipQueue j) (currentDepth j).

Definition set_Running (v : bool) (j : Job) : Job :=
  mkJob (Config j) (Counter j) (ErrorCounter j) (SpuriousErrorCounter j)
    (Total j) v (RunningJob j) (Paused j) (Count403 j) (Count429 j)
    (Error j) (startTime j) (startTimeJob j) (queuejobs j) (queuepos j)
    (skipQueue j) (currentDepth j).

Definition set_RunningJob (v : bool) (j : Job) : Job :=
  mkJob (Config j) (Counter j) (ErrorCounter j) (SpuriousErrorCounter j)
    (Total j) (Running j) v (Paused j) (Count403 j) (Count429 j) (Error j)
    (startTime j) (startTimeJob j) (queuejobs j) (queuepos j) (skipQueue j)
    (currentDepth j).

Definition set_Paused (v : bool) (j : Job) : Job :=
  mkJob (Config j) (Counter j) (ErrorCounter j) (SpuriousErrorCounter j)
    (Total j) (Running j) (RunningJob j) v (Count403 j) (Count429 j)
    (Error j) (startTime j) (startTimeJob j) (queuejobs j) (queuepos j)
    (skipQueue j) (currentDepth j).

Definition set_Count403 (v : Z) (j : Job) : Job :=
  mkJob (Config j) (Counter j) (ErrorCounter j) (SpuriousErrorCounter j)
    (Total j) (Running j) (RunningJob j) (Paused j) v (Count429 j) (Error j)
    (startTime j) (startTimeJob j) (queuejobs j) (queuepos j) (skipQueue j)
    (currentDepth j).

Definition set_Count429 (v : Z) (j : Job) : Job :=
  mkJob (Config j) (Counter j) (ErrorCounter j) (SpuriousErrorCounter j)
    (Total j) (Running j) (RunningJob j) (Paused j) (Count403 j) v (Error j)
    (startTime j) (startTimeJob j) (queuejobs j) (queuepos j) (skipQueue j)
    (currentDepth j).

Definition set_Error (v : string) (j : Job) : Job :=
  mkJob (Config j) (Counter j) (ErrorCounter j) (SpuriousErrorCounter j)
    (Total j) (Running j) (RunningJob j) (Paused j) (Count403 j)
    (Count429 j) v (startTime j) (startTimeJob j) (queuejobs j) (queuepos j)
    (skipQueue j) (currentDepth j).

Definition set_startTime (v : Time) (j : Job) : Job :=
  mkJob (Config j) (Counter j) (ErrorCounter j) (SpuriousErrorCounter j)
    (Total j) (Running j) (RunningJob j) (Paused j) (Count403 j)
    (Count429 j) (Error j) v (startTimeJob j) (queuejobs j) (queuepos j)
    (skipQueue j) (currentDepth j).

Definition set_startTimeJob (v : Time) (j : Job) : Job :=
  mkJob (Config j) (Counter j) (ErrorCounter j) (SpuriousErrorCounter j)
    (Total j) (Running j) (RunningJob j) (Paused j) (Count403 j)
    (Count429 j) (Error j) (startTime j) v (queuejobs j) (queuepos j)
    (skipQueue j) (currentDepth j).

Definition set_queuejobs (v : list QueueJob.t) (j : Job) : Job :=
  mkJob (Config j) (Counter j) (ErrorCounter j) (SpuriousErrorCounter j)
    (Total j) (Running j) (RunningJob j) (Paused j) (Count403 j)
    (Count429 j) (Error j) (startTime j) (startTimeJob j) v (queuepos j)
    (skipQueue j) (currentDepth j).

Definition set_queuepos (v : Z) (j : Job) : Job :=
  mkJob (Config j) (Counter j) (ErrorCounter j) (SpuriousErrorCounter j)
    (Total j) (Running j) (RunningJob j) (Paused j) (Count403 j)
    (Count429 j) (Error j) (startTime j) (startTimeJob j) (queuejobs j) v
    (skipQueue j) (currentDepth j).

Definition set_skipQueue (v : bool) (j : Job) : Job :=
  mkJob (Config j) (Counter j) (ErrorCounter j) (SpuriousErrorCounter j)
    (Total j) (Running j) (RunningJob j) (Paused j) (Count403 j)
    (Count429 j) (Error j) (startTime j) (startTimeJob j) (queuejobs j)
    (queuepos j) v (currentDepth j).

Definition set_currentDepth (v : Z) (j : Job) : Job :=
  mkJob (Config j) (Counter j) (ErrorCounter j) (SpuriousErrorCounter j)
    (Total j) (Running j) (RunningJob j) (Paused j) (Count403 j)
    (Count429 j) (Error j) (startTime j) (startTimeJob j) (queuejobs j)
    (queuepos j) (skipQueue j) v.

Definition set_trace (v : list Event) (w : World) : World :=
  mkWorld v (inputPos w) (runnerCalls w) (replayCalls w) (clockReads w)
    (randCalls w).

Definition set_inputPos (v : Z) (w : World) : World :=
  mkWorld (trace w) v (runnerCalls w) (replayCalls w) (clockReads w)
    (randCalls w).

Definition set_runnerCalls (v : nat) (w : World) : World :=
  mkWorld (trace w) (inputPos w) v (replayCalls w) (clockReads w)
    (randCalls w).

Definition set_replayCalls (v : nat) (w : World) : World :=
  mkWorld (trace w) (inputPos w) (runnerCalls w) v (clockReads w)
    (randCalls w).

Definition set_clockReads (v : nat) (w : World) : World :=
  mkWorld (trace w) (inputPos w) (runnerCalls w) (replayCalls w) v
    (randCalls w).

Definition set_randCalls (v : nat) (w : World) : World :=
  mkWorld (trace w) (inputPos w) (runnerCalls w) (replayCalls w)
    (clockReads w) v.

(** ** A state monad for the engine *)

Definition M (A : Type) : Type := State -> A * State.

Definition ret {A} (a : A) : M A := fun s => (a, s).

Definition bind {A B} (m : M A) (k : A -> M B) : M B :=
  fun s => let (a, s') := m s in k a s'.

Notation "'let*' x ':=' m 'in' k" := (bind m (fun x => k))
  (at level 10, x name, m at level 100, k at level 200, only parsing).
Notation "m ';;;' k" := (bind m (fun _ => k))
  (at level 100, k at level 200, right associativity, only parsing).

Definition get_job : M Job := fun s => (job s, s).
Definition get_world : M World := fun s => (world s, s).
Definition modify_job (f : Job -> Job) : M unit :=
  fun s => (tt, mkState (f (job s)) (world s)).
Definition modify_world (f : World -> World) : M unit :=
  fun s => (tt, mkState (job s) (f (world s))).

Definition when (b : bool) (m : M unit) : M unit := if b then m else ret tt.

(** A call on a collaborator is recorded at the end of the trace. *)
Definition emit (e : Event) : M unit :=
  modify_world (fun w => set_trace (trace w ++ [e]) w).

(** [time.Now()] *)
Definition time_Now (env : Env) : M Time :=
  let* w := get_world in
  modify_world (set_clockReads (S (clockReads w))) ;;;
  ret (clock env (clockReads w)).

Definition nl : string := String (Ascii.ascii_of_nat 10) EmptyString.

(** The outcome of code that may panic, or whose loop is cut by the fuel of
    the model. *)
Inductive Result (A : Type) : Type :=
  | Ok (a : A)
  | Panic
  | OutOfFuel.
Arguments Ok {A} a.
Arguments Panic {A}.
Arguments OutOfFuel {A}.

(** ** The float64 arithmetic of CheckStop

    IEEE 754 binary64, as specified by the Standard Library: 53 bits of
    precision, infinities at exponent 1024. *)

Definition float64 := spec_float.

(** The conversion [float64(n)] of an int. *)
Definition float64_of_int (n : Z) : float64 := binary_normalize 53 1024 n 0 false.

Definition float64_div (x y : float64) : float64 := SFdiv 53 1024 x y.

(** [x > y] *)
Definition float64_gt (x y : float64) : bool := SFltb y x.

(** The constants [0.95] and [0.2]: the binary64 numbers nearest to 95/100
    and to 2/10. *)
Definition f0_95 : float64 := S754_finite false 8556839292003942 (-53).
Definition f0_2 : float64 := S754_finite false 7205759403792794 (-55).

(** ** The engine *)

Section Engine.

Variable env : Env.

(** *** The input provider

    The type behind [Job.Input] is declared outside job.go; the five
    operations below follow section 6 of the specification, on a list of
    values and a cursor. *)

(** Modelled from the spec: [Next] of the input provider, which is not in
    job.go; it advances the cursor and tells whether a value is available. *)
Definition Input_Next : M bool :=
  let* w := get_world in
  modify_world (set_inputPos (inputPos w + 1)) ;;;
  ret (inputPos w + 1 <? len (wordlist env)).

(** Modelled from the spec: [Value] of the input provider, which is not in
    job.go; the value at the cursor. *)
Definition Input_Value : M InputMap :=
  let* w := get_world in
  ret (default [] (index (wordlist env) (inputPos w))).

(** Modelled from the spec: [Position] of the input provider, which is not
    in job.go; the cursor. *)
Definition Input_Position : M Z :=
  let* w := get_world in ret (inputPos w).

(** Modelled from the spec: [Total] of the input provider, which is not in
    job.go; the number of values. *)
Definition Input_Total : Z := len (wordlist env).

(** Modelled from the spec: [Reset] of the input provider, which is not in
    job.go; it moves the cursor in front of the first value. *)
Definition Input_Reset : M unit :=
  emit InputReset ;;; modify_world (set_inputPos (-1)).

(** *** Counters *)

Definition incError : M unit :=
  modify_job (fun j => set_ErrorCounter (int_add (ErrorCounter j) 1) j) ;;;
  modify_job (fun j =>
    set_SpuriousErrorCounter (int_add (SpuriousErrorCounter j) 1) j).

Definition inc403 : M unit :=
  modify_job (fun j => set_Count403 (int_add (Count403 j) 1) j).

Definition inc429 : M unit :=
  modify_job (fun j => set_Count429 (int_add (Count429 j) 1) j).

Definition resetSpuriousErrors : M unit :=
  modify_job (set_SpuriousErrorCounter 0).

(** *** The queue *)

(** [append(s[:i], s[i+1:]...)]: the first slice expression panics for a
    negative [i], the second one unless [0 <= i+1 <= len(s)]; an [i] that
    passes both is within the capacity of [s]. *)
Definition DeleteQueueItem (idx : Z) (j : Job) : option Job :=
  let idx := int_sub (int_add (queuepos j) idx) 1 in
  if (0 <=? idx) && (0 <=? int_add idx 1)
     && (int_add idx 1 <=? len (queuejobs j))
  then Some (set_queuejobs
               (take (Z.to_nat idx) (queuejobs j)
                  ++ drop (Z.to_nat (int_add idx 1)) (queuejobs j)) j)
  else None.

Definition QueuedJobs (j : Job) : option (list QueueJob.t) :=
  slice_from (queuejobs j) (int_sub (queuepos j) 1).

Definition jobsInQueue (j : Job) : bool :=
  queuepos j <? len (queuejobs j).

Definition prepareQueueJob (j : Job) : option Job :=
  match index (queuejobs j) (queuepos j) with
  | None => None
  | Some q =>
      let j := set_Config (Config.set_Url (QueueJob.Url q) (Config j)) j in
      let j := set_currentDepth (QueueJob.depth q) j in
      Some (set_queuepos (int_add (queuepos j) 1) j)
  end.


(** *** Stop and Next *)

Definition Stop : M unit :=
  modify_job (set_Running false) ;;; emit ConfigCancel.

Definition Next : M unit := modify_job (set_RunningJob false).

(** *** Reset *)

Definition Reset (cycle : bool) : M unit :=
  Input_Reset ;;;
  modify_job (set_Counter 0) ;;;
  modify_job (set_skipQueue false) ;;;
  (let* t := time_Now env in modify_job (set_startTimeJob t)) ;;;
  (if cycle then emit OutCycle else emit OutReset).

(** *** Pause and Resume *)

Definition Pause : M unit :=
  let* j := get_job in
  when (negb (Paused j))
    (modify_job (set_Paused true) ;;; emit (OutInfo "------ PAUSING ------")).

Definition Resume : M unit :=
  let* j := get_job in
  when (Paused j)
    (modify_job (set_Paused false) ;;; emit (OutInfo "------ RESUMING -----")).

(** *** Progress *)

Definition updateProgress : M unit :=
  let* j := get_job in
  let* w := get_world in
  emit (OutProgress
          (Progress.mk (startTimeJob j) (Counter j) Input_Total
             (CurrentRate env (runnerCalls w)) (queuepos j)
             (len (queuejobs j)) (ErrorCounter j))).

(** *** MatchEngine *)

(** The loop over the matchers: every matcher is evaluated, one that returns
    an error is skipped. *)
Fixpoint matchers_loop (ms : list FilterProvider.t) (resp : Response.t)
    (matched : bool) : bool :=
  match ms with
  | [] => matched
  | m :: ms' =>
      let (mt, err) := FilterProvider.Filter m resp in
      match err with
      | Some _ => matchers_loop ms' resp matched
      | None => matchers_loop ms' resp (if mt then true else matched)
      end
  end.

(** The loop over the filters: [true] when it was left by [return false],
    that is when some filter returned true without an error. *)
Fixpoint filters_loop (fs : list FilterProvider.t) (resp : Response.t) : bool :=
  match fs with
  | [] => false
  | f :: fs' =>
      let (fv, err) := FilterProvider.Filter f resp in
      match err with
      | Some _ => filters_loop fs' resp
      | None => if fv then true else filters_loop fs' resp
      end
  end.

Definition isMatch (resp : Response.t) : M bool :=
  let* j := get_job in
  let matched := matchers_loop (Config.Matchers (Config j)) resp false in
  if negb matched then
    emit (MakeFreeMemory resp) ;;; ret false
  else if filters_loop (Config.Filters (Config j)) resp then
    emit (MakeFreeMemory resp) ;;; ret false
  else
    emit (MakeFreeMemory resp) ;;; ret true.

(** *** Recursion *)

Definition handleGreedyRecursionJob (resp : Response.t) : M unit :=
  let* j := get_job in
  let url := Request.Url (Response.Request resp) in
  if (Config.RecursionDepth (Config j) =? 0)
     || (currentDepth j <? Config.RecursionDepth (Config j))
  then
    let recUrl := (url +:+ "/") +:+ "FUZZ" in
    let newJob := QueueJob.mk recUrl (int_add (currentDepth j) 1) in
    modify_job (fun j => set_queuejobs (queuejobs j ++ [newJob]) j) ;;;
    emit (OutInfo ("Adding a new job to the queue: " +:+ recUrl))
  else
    emit (OutWarning ("Maximum recursion depth reached. Ignoring: " +:+ url)).

Definition handleDefaultRecursionJob (resp : Response.t) : M unit :=
  let* j := get_job in
  let url := Request.Url (Response.Request resp) in
  let recUrl := (url +:+ "/") +:+ "FUZZ" in
  if negb (String.eqb (url +:+ "/") (Response.GetRedirectLocation resp true))
  then ret tt
  else if (Config.RecursionDepth (Config j) =? 0)
          || (currentDepth j <? Config.RecursionDepth (Config j))
  then
    let newJob := QueueJob.mk recUrl (int_add (currentDepth j) 1) in
    modify_job (fun j => set_queuejobs (queuejobs j ++ [newJob]) j) ;;;
    emit (OutInfo ("Adding a new job to the queue: " +:+ recUrl))
  else
    emit (OutWarning
            ("Directory found, but recursion depth exceeded. Ignoring: "
               +:+ Response.GetRedirectLocation resp true)).

(** *** The worker *)

Definition Runner_Prepare (input : InputMap) : M (Request.t * error) :=
  let* w := get_world in
  let* j := get_job in
  modify_world (set_runnerCalls (S (runnerCalls w))) ;;;
  ret (RunnerProvider.Prepare (Runner env) (runnerCalls w) (Config j) input).

Definition Runner_Execute (req : Request.t) : M (Response.t * error) :=
  let* w := get_world in
  modify_world (set_runnerCalls (S (runnerCalls w))) ;;;
  ret (RunnerProvider.Execute (Runner env) (runnerCalls w) req).

Definition Replay_Prepare (rr : RunnerProvider.t) (input : InputMap)
    : M (Request.t * error) :=
  let* w := get_world in
  let* j := get_job in
  modify_world (set_replayCalls (S (replayCalls w))) ;;;
  ret (RunnerProvider.Prepare rr (replayCalls w) (Config j) input).

Definition Replay_Execute (rr : RunnerProvider.t) (req : Request.t)
    : M (Response.t * error) :=
  let* w := get_world in
  modify_world (set_replayCalls (S (replayCalls w))) ;;;
  ret (RunnerProvider.Execute rr (replayCalls w) req).

(** The replay of a matched request through the replay proxy. *)
Definition replay (input : InputMap) (position : Z) : M unit :=
  match ReplayRunner env with
  | None => ret tt
  | Some rr =>
      let* pr := Replay_Prepare rr input in
      let replayreq := Request.mk (Request.Url (fst pr)) position in
      match snd pr with
      | Some err =>
          emit (OutError
                  ("Encountered an error while preparing replayproxy request: "
                     +:+ err +:+ nl)) ;;;
          incError ;;;
          emit (LogPrintf err)
      | None =>
          let* _ := Replay_Execute rr replayreq in ret tt
      end
  end.

(** The counters that [runTask] updates once [Execute] has succeeded. *)
Definition countStatus (resp : Response.t) : M unit :=
  (let* j := get_job in
   when (SpuriousErrorCounter j >? 0) resetSpuriousErrors) ;;;
  (let* j := get_job in
   when (Config.StopOn403 (Config j) || Config.StopOnAll (Config j))
     (when (Response.StatusCode resp =? 403) inc403)) ;;;
  (let* j := get_job in
   when (Config.StopOnAll (Config j))
     (when (Response.StatusCode resp =? 429) inc429)).

(** The block of [runTask] under [if j.isMatch(resp)]. *)
Definition emitMatch (input : InputMap) (position : Z) (resp : Response.t)
    : M unit :=
  replay input position ;;;
  emit (OutResult resp) ;;;
  updateProgress ;;;
  let* j := get_job in
  when (Config.Recursion (Config j)
        && String.eqb (Config.RecursionStrategy (Config j)) "greedy")
    (handleGreedyRecursionJob resp).

(** The last statement of [runTask]. *)
Definition defaultRecursion (resp : Response.t) : M unit :=
  let* j := get_job in
  when (Config.Recursion (Config j)
        && String.eqb (Config.RecursionStrategy (Config j)) "default"
        && (Z.of_nat (String.length (Response.GetRedirectLocation resp false))
              >? 0))
    (handleDefaultRecursionJob resp).

(** What [runTask] does with a response once [Execute] has succeeded. *)
Definition processResponse (input : InputMap) (position : Z)
    (resp : Response.t) : M unit :=
  countStatus resp ;;;
  (let* matched := isMatch resp in
   when matched (emitMatch input position resp)) ;;;
  emit (MakeFreeMemory resp) ;;;
  defaultRecursion resp.

(** The body of [runTask]; [self] is the function called by the recursive
    call of the source. *)
Definition runTask_body (self : InputMap -> Z -> bool -> M unit)
    (input : InputMap) (position : Z) (retried : bool) : M unit :=
  let* pr := Runner_Prepare input in
  let req := Request.mk (Request.Url (fst pr)) position in
  match snd pr with
  | Some err =>
      emit (OutError
              ("Encountered an error while preparing request: "
                 +:+ err +:+ nl)) ;;;
      incError ;;;
      emit (LogPrintf err)
  | None =>
      let* ex := Runner_Execute req in
      match snd ex with
      | Some err =>
          if retried then incError ;;; emit (LogPrintf err)
          else self input position true
      | None => processResponse input position (fst ex)
      end
  end.

(** [runTask] calls itself only with [retried = true], and a call with
    [retried = true] calls nothing: two unfoldings of the body are the
    function. *)
Definition runTask : InputMap -> Z -> bool -> M unit :=
  runTask_body (runTask_body (fun _ _ _ => ret tt)).

(** *** Calibrator *)

(** The inputs of the calibration requests. *)
Definition calibrationInputs (j : Job) : M (list string) :=
  let* _ := time_Now env in            (* the seed of rand *)
  if len (Config.AutoCalibrationStrings (Config j)) <? 1 then
    let* w := get_world in
    let n := randCalls w in
    modify_world (set_randCalls (n + 4)%nat) ;;;
    ret [ "admin" +:+ RandomString env n 16 +:+ "/";
          ".htaccess" +:+ RandomString env (n + 1)%nat 16;
          RandomString env (n + 2)%nat 16 +:+ "/";
          RandomString env (n + 3)%nat 16 ]
  else ret (Config.AutoCalibrationStrings (Config j)).

(** The loop of [CalibrateResponses] over the inputs, from the responses
    collected so far. *)
Fixpoint calibrate_loop (cInputs : list string) (results : list Response.t)
    : M (list Response.t * error) :=
  match cInputs with
  | [] => ret (results, None)
  | input :: rest =>
      let* j := get_job in
      let inputs : InputMap :=
        map (fun kw => (kw, input)) (Config.InputProviders (Config j)) in
      let* pr := Runner_Prepare inputs in
      match snd pr with
      | Some err =>
          emit (OutError
                  ("Encountered an error while preparing request: "
                     +:+ err +:+ nl)) ;;;
          incError ;;;
          emit (LogPrintf err) ;;;
          ret (results, Some err)
      | None =>
          let* ex := Runner_Execute (fst pr) in
          match snd ex with
          | Some err => ret (results, Some err)
          | None =>
              let resp := fst ex in
              let* matched := isMatch resp in
              if matched then
                emit (MakeFreeMemory resp) ;;;
                emit (MakeFreeMemory resp) ;;;
                calibrate_loop rest (results ++ [resp])
              else
                emit (MakeFreeMemory resp) ;;;
                calibrate_loop rest results
          end
      end
  end.

Definition CalibrateResponses : M (list Response.t * error) :=
  let* j := get_job in
  let* cInputs := calibrationInputs j in
  calibrate_loop cInputs [].

(** *** StopController *)

Definition msg403 : string :=
  "Getting an unusual amount of 403 responses, exiting.".
Definition msgErrors : string := "Receiving spurious errors, exiting.".
Definition msg429 : string :=
  "Getting an unusual amount of 429 responses, exiting.".
Definition msgMaxTime : string :=
  "Maximum running time for entire process reached, exiting.".
Definition msgMaxTimeJob : string :=
  "Maximum running time for this job reached, continuing with next job if one exists.".

(** [float64(a)/float64(b) > c] *)
Definition ratio_gt (a b : Z) (c : float64) : bool :=
  float64_gt (float64_div (float64_of_int a) (float64_of_int b)) c.

Global Arguments ratio_gt : simpl never.

(** The three adaptive stops, under [if j.Counter > 50]. *)
Definition check403 : M unit :=
  let* j := get_job in
  when (Config.StopOn403 (Config j) || Config.StopOnAll (Config j))
    (when (ratio_gt (Count403 j) (Counter j) f0_95)
       (modify_job (set_Error msg403) ;;; Stop)).

Definition checkErrors : M unit :=
  let* j := get_job in
  when (Config.StopOnErrors (Config j) || Config.StopOnAll (Config j))
    (when (SpuriousErrorCounter j >? int_mul (Config.Threads (Config j)) 2)
       (modify_job (set_Error msgErrors) ;;; Stop)).

Definition check429 : M unit :=
  let* j := get_job in
  when (Config.StopOnAll (Config j)
        && ratio_gt (Count429 j) (Counter j) f0_2)
    (modify_job (set_Error msg429) ;;; Stop).

Definition checkAdaptive : M unit :=
  check403 ;;; checkErrors ;;; check429.

(** [int(time.Since(t) / time.Second)]: the division of Go truncates. *)
Definition runningSecs (now t : Time) : Z := Z.quot (now - t) second.

(** The check of the run time of the entire process. *)
Definition checkMaxTime : M unit :=
  let* j := get_job in
  when (Config.MaxTime (Config j) >? 0)
    (let* now := time_Now env in
     when (runningSecs now (startTime j) >=? Config.MaxTime (Config j))
       (modify_job (set_Error msgMaxTime) ;;; Stop)).

(** The check of the run time of the current job. *)
Definition checkMaxTimeJob : M unit :=
  let* j := get_job in
  when (Config.MaxTimeJob (Config j) >? 0)
    (let* now := time_Now env in
     when (runningSecs now (startTimeJob j) >=? Config.MaxTimeJob (Config j))
       (modify_job (set_Error msgMaxTimeJob) ;;; Next)).

Definition CheckStop : M unit :=
  (let* j := get_job in when (Counter j >? 50) checkAdaptive) ;;;
  checkMaxTime ;;;
  checkMaxTimeJob.

(** *** Dispatcher *)

Definition is_Finalize (e : Event) : bool :=
  match e with OutFinalize => true | _ => false end.

Definition is_MakeFreeMemory (e : Event) : bool :=
  match e with MakeFreeMemory _ => true | _ => false end.

(** The number of calls of a kind in a trace. *)
Definition count_events (p : Event -> bool) (tr : list Event) : nat :=
  length (List.filter p tr).

(** [j.Output.Finalize()] *)
Definition Output_Finalize : M error :=
  let* w := get_world in
  emit OutFinalize ;;;
  ret (FinalizeResult env (count_events is_Finalize (trace w))).

(** How the loop of [startExecution] is left; [break] and [return] come
    with the argument of the deferred [Output.Warning], which Go evaluates
    at the [defer] statement. *)
Inductive LoopExit : Type :=
  | LoopEnd
  | LoopBreak (deferred : string)
  | LoopReturn (deferred : string).

(** One turn of the loop, after its condition held; [None] goes round
    again. *)
Definition dispatch_body : M (option LoopExit) :=
  CheckStop ;;;
  let* j := get_job in
  if negb (Running j) then ret (Some (LoopBreak (Error j)))
  else
    let* nextInput := Input_Value in
    let* nextPosition := Input_Position in
    let* _ := Output_Finalize in
    modify_job (fun j => set_Counter (int_add (Counter j) 1) j) ;;;
    runTask nextInput nextPosition false ;;;
    let* j := get_job in
    if negb (RunningJob j) then ret (Some (LoopReturn (Error j)))
    else ret None.

(** [for j.Input.Next() && !j.skipQueue { ... }] *)
Fixpoint dispatch (fuel : nat) (s : State) : Result (LoopExit * State) :=
  match fuel with
  | O => OutOfFuel
  | S fuel' =>
      let (more, s1) := Input_Next s in
      if more && negb (skipQueue (job s1)) then
        let (r, s2) := dispatch_body s1 in
        match r with
        | Some e => Ok (e, s2)
        | None => dispatch fuel' s2
        end
      else Ok (LoopEnd, s1)
  end.

Definition startExecution (fuel : nat) (s : State) : Result State :=
  let (_, s0) :=
    (let* j := get_job in
     when (queuepos j >? 1)
       (emit (OutInfo ("Starting queued job on target: "
                         +:+ Config.Url (Config j))))) s in
  match dispatch fuel s0 with
  | Ok (LoopEnd, s1) => Ok (snd (updateProgress s1))
  | Ok (LoopBreak msg, s1) =>
      Ok (snd ((updateProgress ;;; emit (OutWarning msg)) s1))
  | Ok (LoopReturn msg, s1) => Ok (snd (emit (OutWarning msg) s1))
  | Panic => Panic
  | OutOfFuel => OutOfFuel
  end.

(** *** Start *)

(** [for j.jobsInQueue() { ... }] *)
Fixpoint drainQueue (fuel : nat) (s : State) : Result State :=
  match fuel with
  | O => OutOfFuel
  | S fuel' =>
      if jobsInQueue (job s) then
        match prepareQueueJob (job s) with
        | None => Panic
        | Some j =>
            let (_, s1) :=
              (Reset true ;;; modify_job (set_RunningJob true))
                (mkState j (world s)) in
            match startExecution fuel s1 with
            | Ok s2 => drainQueue fuel' s2
            | Panic => Panic
            | OutOfFuel => OutOfFuel
            end
        end
      else Ok s
  end.

Definition Start (fuel : nat) (s : State) : Result State :=
  let (_, s0) :=
    ((let* j := get_job in
      when (startTime j =? 0)
        (let* t := time_Now env in modify_job (set_startTime t))) ;;;
     modify_job (fun j =>
       set_queuejobs
         (queuejobs j ++ [QueueJob.mk (Config.Url (Config j)) 0]) j) ;;;
     (let* _ := time_Now env in ret tt) ;;;      (* the seed of rand *)
     modify_job (set_Total Input_Total) ;;;
     modify_job (set_Running true) ;;;
     modify_job (set_RunningJob true) ;;;
     let* j := get_job in
     when (negb (Config.Quiet (Config j))) (emit OutBanner)) s in
  match drainQueue fuel s0 with
  | Ok s1 =>
      Ok (snd ((let* err := Output_Finalize in
                match err with
                | Some e => emit (OutError e)
                | None => ret tt
                end ;;;
                Stop) s1))                        (* the deferred Stop *)
  | Panic => Panic
  | OutOfFuel => OutOfFuel
  end.

End Engine.

(** [NewJob]: the zero values of Go for the fields it does not set. *)
Definition NewJob (conf : Config.t) : Job :=
  mkJob conf 0 0 0 0 false false false 0 0 "" 0 0 [] 0 false 0.

(** The collaborators before the first call. *)
Definition newWorld : World := mkWorld [] (-1) 0 0 0 0.

(** ** Fixtures: concrete configurations, runners and states *)

Module Fixtures.

Definition status_is (c : Z) : FilterProvider.t :=
  FilterProvider.mk (fun r => (Response.StatusCode r =? c, None)).

Definition match_all : FilterProvider.t :=
  FilterProvider.mk (fun _ => (true, None)).

Definition word (s : string) : InputMap := [("FUZZ"%string, s)].

Definition value_of (i : InputMap) : string :=
  match i with (_, v) :: _ => v | [] => "" end.

Definition conf (ms fs : list FilterProvider.t) : Config.t :=
  Config.mk "http://h/FUZZ" 2 true ms fs false "default" 0
    false false false 0 0 [] ["FUZZ"%string].

(** A runner whose [Prepare] succeeds and whose [Execute] fails at the
    calls selected by [fails]; a response has status 200 and no redirect. *)
Definition runner (fails : nat -> bool) : RunnerProvider.t :=
  RunnerProvider.mk
    (fun _ _ i => (Request.mk ("http://h/" +:+ value_of i) 0, None))
    (fun n rq =>
       (Response.mk 200 rq (fun _ => ""),
        if fails n then Some "timeout"%string else None)).

(** A runner whose [Prepare] fails. *)
Definition runner_unprepared : RunnerProvider.t :=
  RunnerProvider.mk
    (fun _ _ i => (Request.mk "" 0, Some "bad template"%string))
    (fun n rq => (Response.mk 200 rq (fun _ => ""), None)).

(** A runner for a site: the request is the url of the configuration with
    the word in the place of the final "FUZZ"; the site maps the url of a
    request to a status and a redirect location. *)
Definition strip_FUZZ (u : string) : string :=
  String.substring 0 (String.length u - 4) u.

Definition site_runner (site : string -> Z * string) : RunnerProvider.t :=
  RunnerProvider.mk
    (fun _ c i =>
       (Request.mk (strip_FUZZ (Config.Url c) +:+ value_of i) 0, None))
    (fun _ rq =>
       let (status, location) := site (Request.Url rq) in
       (Response.mk status rq (fun _ => location), None)).

(** Only "http://h/b" exists. *)
Definition site_b (u : string) : Z * string :=
  if String.eqb u "http://h/b" then (200, ""%string) else (404, ""%string).

(** Every url is a directory: it redirects to itself with a slash. *)
Definition site_dirs (u : string) : Z * string := (301, u +:+ "/").

Definition env (r : RunnerProvider.t) (replay : option RunnerProvider.t)
    (words : list InputMap) : Env :=
  mkEnv r replay words (fun n => Z.of_nat n) (fun _ => None) (fun _ => 0)
    (fun _ _ => "0123456789abcdef"%string).

Definition never : nat -> bool := fun _ => false.
Definition always : nat -> bool := fun _ => true.
Definition first_execute : nat -> bool := fun n => Nat.eqb n 1.

Definition state (c : Config.t) : State := mkState (NewJob c) newWorld.

(** The response of [runner] to the word "a". *)
Definition resp_a : Response.t :=
  Response.mk 200 (Request.mk "http://h/a" 0) (fun _ => "").

(** Recursion switched on, with a strategy and a depth bound. *)
Definition conf_recursion (strategy : string) (bound : Z) : Config.t :=
  Config.mk "http://h/FUZZ" 2 true [match_all] [] true strategy bound
    false false false 0 0 [] ["FUZZ"%string].

(** A redirect of "http://h/admin" to its form with a trailing slash. *)
Definition resp_dir : Response.t :=
  Response.mk 301 (Request.mk "http://h/admin" 0)
    (fun absolute =>
       if absolute then "http://h/admin/"%string else "/admin/"%string).

(** The adaptive stop on 403 switched on, four threads. *)
Definition conf_stop403 : Config.t :=
  Config.mk "http://h/FUZZ" 4 true [match_all] [] false "default" 0
    true false false 0 0 [] ["FUZZ"%string].

(** 51 inputs dispatched, 49 responses with status 403. *)
Definition state_403 : State :=
  mkState (set_Count403 49 (set_Counter 51
             (set_Running true (NewJob conf_stop403)))) newWorld.




(** The adaptive stop on errors switched on, four threads. *)
Definition conf_stopOnErrors : Config.t :=
  Config.mk "http://h/FUZZ" 4 true [match_all] [] false "default" 0
    false true false 0 0 [] ["FUZZ"%string].

Definition env_b : Env :=
  env (site_runner site_b) None [word "a"; word "b"; word "c"].

Definition env_dirs : Env := env (site_runner site_dirs) None [word "admin"].

Definition env_failing : Env :=
  env (runner always) None (replicate 60 (word "x")).

Definition qa : QueueJob.t := QueueJob.mk "http://h/FUZZ" 0.
Definition qb : QueueJob.t := QueueJob.mk "http://h/b/FUZZ" 1.
Definition qc : QueueJob.t := QueueJob.mk "http://h/c/FUZZ" 1.

(** A job at its first target, with two recursion targets pending. *)
Definition job_abc : Job :=
  set_queuepos 1 (set_queuejobs [qa; qb; qc] (NewJob (conf [] []))).

End Fixtures.

(** ** Notions of the specification, for comparison with the code *)

(** A matcher or filter "returns true" on a response: the value is true and
    there is no error. *)
Definition returns_true (resp : Response.t) (p : FilterProvider.t) : bool :=
  match FilterProvider.Filter p resp with
  | (true, None) => true
  | _ => false
  end.

(** The provider that answers false without an error wherever [p] returns
    an error. *)
Definition error_as_false (p : FilterProvider.t) : FilterProvider.t :=
  FilterProvider.mk (fun resp =>
    match FilterProvider.Filter p resp with
    | (_, Some _) => (false, None)
    | r => r
    end).

(** The test of the depth budget, common to both recursion handlers. *)
Definition depth_allows (j : Job) : Prop :=
  Config.RecursionDepth (Config j) = 0
  \/ currentDepth j < Config.RecursionDepth (Config j).

(** The target that a recursion handler appends for a response. *)
Definition recursion_target (j : Job) (resp : Response.t) : QueueJob.t :=
  QueueJob.mk (Request.Url (Response.Request resp) +:+ "/FUZZ")
    (int_add (currentDepth j) 1).

(** The state in which [runTask] reaches its last statement, the call of
    the default recursion handler. *)
Definition before_defaultRecursion (env : Env) (input : InputMap)
    (position : Z) (resp : Response.t) (s : State) : State :=
  let s1 := snd (countStatus resp s) in
  let r := isMatch resp s1 in
  let s3 := snd (when (fst r) (emitMatch env input position resp) (snd r)) in
  snd (emit (MakeFreeMemory resp) s3).

(** The replay runner is present and its [Prepare], called for the [n]-th
    time under the configuration [c], returns an error. *)
Definition replay_prepare_fails (env : Env) (c : Config.t) (input : InputMap)
    (n : nat) : bool :=
  match ReplayRunner env with
  | Some rr =>
      match snd (RunnerProvider.Prepare rr n c input) with
      | Some _ => true
      | None => false
      end
  | None => false
  end.

(** The state after [k] more calls of the runner that changed nothing
    else. *)
Definition after_calls (k : nat) (s : State) : State :=
  mkState (job s) (set_runnerCalls (k + runnerCalls (world s)) (world s)).

(** The error of [Runner.Prepare] when it is the [n]-th call of the runner,
    under the configuration [c]; the request that [runTask] builds from its
    result; and the result of [Runner.Execute] on this request as the next
    call. *)
Definition prepare_error (env : Env) (c : Config.t) (input : InputMap)
    (n : nat) : error :=
  snd (RunnerProvider.Prepare (Runner env) n c input).

Definition request_at (env : Env) (c : Config.t) (input : InputMap)
    (position : Z) (n : nat) : Request.t :=
  Request.mk
    (Request.Url (fst (RunnerProvider.Prepare (Runner env) n c input)))
    position.

Definition execute_at (env : Env) (c : Config.t) (input : InputMap)
    (position : Z) (n : nat) : Response.t * error :=
  RunnerProvider.Execute (Runner env) (S n)
    (request_at env c input position n).

(** The urls of the results and the warnings that were emitted, in
    order. *)
Definition results (tr : list Event) : list string :=
  omap (fun e => match e with
                 | OutResult r => Some (Request.Url (Response.Request r))
                 | _ => None
                 end) tr.

Definition warnings (tr : list Event) : list string :=
  omap (fun e => match e with OutWarning m => Some m | _ => None end) tr.

(** The responses whose release hook was called, in the order of the
    calls. *)
Definition freed (tr : list Event) : list Response.t :=
  omap (fun e => match e with MakeFreeMemory r => Some r | _ => None end) tr.



(** [m] does not change the projection [f] of the job. *)
Definition preserves {A X} (f : Job -> X) (m : M A) : Prop :=
  forall s, f (job (snd (m s))) = f (job s).

(** [m] does not change the projection [f] of the collaborators. *)
Definition preservesW {A X} (f : World -> X) (m : M A) : Prop :=
  forall s, f (world (snd (m s))) = f (world s).

(** ** Notions for the properties of a run *)


(** The fields of the job that steer the dispatcher. *)
Definition steering (j : Job) :=
  (Config j, Running j, RunningJob j, skipQueue j, queuepos j, Error j,
   Total j, currentDepth j).

Definition is_Cycle (e : Event) : bool :=
  match e with OutCycle => true | _ => false end.

(** ** The pause barrier and the signal handler

    [Job.pauseWg] is a [sync.WaitGroup].  Its counter is an int32;
    [Add(delta)] adds [delta] to it and panics when the result is negative;
    [Done()] is [Add(-1)]; [Wait()] returns once the counter is 0. *)

Module WaitGroup.

Definition wrap32 (z : Z) : Z := (z + 2 ^ 31) mod 2 ^ 32 - 2 ^ 31.

(** [None] stands for the panic "sync: negative WaitGroup counter". *)
Definition Add (delta : Z) (counter : Z) : option Z :=
  let v := wrap32 (counter + delta) in
  if v <? 0 then None else Some v.

Definition Done (counter : Z) : option Z := Add (-1) counter.

(** Whether [Wait()] returns without blocking. *)
Definition open (counter : Z) : bool := counter =? 0.

End WaitGroup.

(** The job with its wait group. *)
Record Pausable := mkPausable { engine : State; pauseWg : Z }.

Module Barrier.

(** [Job.Pause], with its call on the wait group. *)
Definition Pause (b : Pausable) : option Pausable :=
  let s := engine b in
  if negb (Paused (job s)) then
    let s1 := snd (modify_job (set_Paused true) s) in
    match WaitGroup.Add 1 (pauseWg b) with
    | None => None
    | Some n =>
        Some (mkPausable (snd (emit (OutInfo "------ PAUSING ------") s1)) n)
    end
  else Some b.

(** [Job.Resume], with its call on the wait group. *)
Definition Resume (b : Pausable) : option Pausable :=
  let s := engine b in
  if Paused (job s) then
    let s1 := snd (modify_job (set_Paused false) s) in
    let s2 := snd (emit (OutInfo "------ RESUMING -----") s1) in
    match WaitGroup.Done (pauseWg b) with
    | None => None
    | Some n => Some (mkPausable s2 n)
    end
  else Some b.

Definition msgInterrupt : string :=
  "Caught keyboard interrupt (Ctrl-C)" +:+ nl.

(** The body of the loop of [interruptMonitor], for one signal. *)
Definition interrupt (b : Pausable) : option Pausable :=
  let s1 := snd (modify_job (set_Error msgInterrupt) (engine b)) in
  match (if Paused (job s1) then WaitGroup.Done (pauseWg b)
         else Some (pauseWg b)) with
  | None => None
  | Some n => Some (mkPausable (snd (Stop s1)) n)
  end.

(** The calls that a user interface makes on a job. *)
Inductive Call : Type := CallPause | CallResume.

Definition call (c : Call) : Pausable -> option Pausable :=
  match c with CallPause => Pause | CallResume => Resume end.

Fixpoint calls (cs : list Call) (b : Pausable) : option Pausable :=
  match cs with
  | [] => Some b
  | c :: cs' =>
      match call c b with
      | None => None
      | Some b' => calls cs' b'
      end
  end.

(** The counter of the wait group is 1 while the job is paused, 0
    otherwise. *)
Definition consistent (b : Pausable) : Prop :=
  pauseWg b = if Paused (job (engine b)) then 1 else 0.

End Barrier.

(** ** The output file (package output, file_json.go) *)

Module Result.
(** [ffuf.Result] is declared outside the files at hand; [writeJSON] reads
    its fields [Input] and [Url]. *)
Record t := mk { Input : InputMap; Url : string }.
End Result.

(** The file system is a map from the names of the files to their contents
    ([gmap string string]).  The outcome of the system calls is a parameter:
    [openError name] is the error of
    [os.OpenFile(name, O_APPEND|O_WRONLY|O_CREATE, 0600)];
    [writeError name b] is the outcome of [f.Write(b)] on the file [name],
    [None] when all of [b] was written, [Some (n, e)] when the call returned
    the error [e] after [n] bytes. *)
Record OS := mkOS {
  openError : string -> error;
  writeError : string -> string -> option (nat * string) }.

(** The loop over the results; the map [strinput] that it fills from
    [r.Input] is never read. *)
Fixpoint writeJSON_loop (res : list Result.t) (jsonRes : list string)
    : list string :=
  match res with
  | [] => jsonRes
  | r :: res' =>
      let strinput := Result.Input r in
      writeJSON_loop res' ((jsonRes ++ [Result.Url r]) ++ [nl])
  end.

Definition writeJSON (os : OS) (filename : string) (config : Config.t)
    (res : list Result.t) (fs : gmap string string)
    : gmap string string * error :=
  let jsonRes := writeJSON_loop res [] in
  let outBytes := String.concat "" jsonRes in
  match openError os filename with
  | Some err => (fs, Some err)
  | None =>
      let old := default ""%string (fs !! filename) in
      match writeError os filename outBytes with
      | Some (n, err) =>
          (<[filename := old +:+ String.substring 0 n outBytes]> fs, Some err)
      | None => (<[filename := old +:+ outBytes]> fs, None)
      end
  end.

(** A reader of the file: its lines, each one ended by a newline; what
    follows the last newline is a line if it is not empty. *)
Fixpoint lines_from (text : string) (line : string) : list string :=
  match text with
  | EmptyString => if String.eqb line "" then [] else [line]
  | String c text' =>
      if Ascii.eqb c (Ascii.ascii_of_nat 10)
      then line :: lines_from text' ""
      else lines_from text' (line +:+ String c EmptyString)
  end.

Definition lines (text : string) : list string := lines_from text "".

(** No byte of [s] is a newline. *)
Fixpoint one_line (s : string) : bool :=
  match s with
  | EmptyString => true
  | String c s' => negb (Ascii.eqb c (Ascii.ascii_of_nat 10)) && one_line s'
  end.

(** A system on which the calls succeed. *)
Definition os_ok : OS := mkOS (fun _ => None) (fun _ _ => None).

(** ** More fixtures *)

Module Cases.



(** A runner that always fails, one word. *)
Definition env_a_failing : Env :=
  Fixtures.env (Fixtures.runner Fixtures.always) None [Fixtures.word "a"].

(** A runner that succeeds, one word. *)
Definition env_a : Env :=
  Fixtures.env (Fixtures.runner Fixtures.never) None [Fixtures.word "a"].

(** Three errors in a row so far. *)
Definition state_three_errors : State :=
  mkState
    (set_SpuriousErrorCounter 3
       (set_ErrorCounter 5 (NewJob (Fixtures.conf [Fixtures.match_all] []))))
    newWorld.



Definition running : Pausable :=
  mkPausable (Fixtures.state (Fixtures.conf [] [])) 0.

Definition paused : Pausable :=
  mkPausable
    (mkState (set_Paused true (NewJob (Fixtures.conf [] []))) newWorld) 1.

Definition result_a : Result.t :=
  Result.mk (Fixtures.word "a") "http://h/a".
Definition result_b : Result.t :=
  Result.mk (Fixtures.word "b") "http://h/b".

End Cases.

(** * Properties *)

(** ** The state monad: what a computation leaves unchanged *)

Lemma preserves_ret {A X} (f : Job -> X) (a : A) : preserves f (ret a).
Proof. by intros s. Qed.

Lemma preserves_bind {A B X} (f : Job -> X) (m : M A) (k : A -> M B) :
  preserves f m -> (forall a, preserves f (k a)) -> preserves f (bind m k).
Proof.
  intros Hm Hk s. unfold bind. specialize (Hm s).
  destruct (m s) as [a s1]. simpl in Hm. by rewrite Hk.
Qed.

Lemma preserves_when {X} (f : Job -> X) (b : bool) (m : M unit) :
  preserves f m -> preserves f (when b m).
Proof. intros Hm. destruct b; [done|]. apply preserves_ret. Qed.

Lemma preserves_get_job {X} (f : Job -> X) : preserves f get_job.
Proof. by intros s. Qed.

Lemma preserves_get_world {X} (f : Job -> X) : preserves f get_world.
Proof. by intros s. Qed.

Lemma preserves_modify_world {X} (f : Job -> X) g :
  preserves f (modify_world g).
Proof. by intros s. Qed.

Lemma preserves_emit {X} (f : Job -> X) e : preserves f (emit e).
Proof. by intros s. Qed.

Lemma preserves_modify_job {X} (f : Job -> X) g :
  (forall j, f (g j) = f j) -> preserves f (modify_job g).
Proof. intros H s. apply H. Qed.

Lemma preserves_time_Now {X} (f : Job -> X) env : preserves f (time_Now env).
Proof. by intros s. Qed.

Lemma preservesW_ret {A X} (f : World -> X) (a : A) : preservesW f (ret a).
Proof. by intros s. Qed.

Lemma preservesW_bind {A B X} (f : World -> X) (m : M A) (k : A -> M B) :
  preservesW f m -> (forall a, preservesW f (k a)) -> preservesW f (bind m k).
Proof.
  intros Hm Hk s. unfold bind. specialize (Hm s).
  destruct (m s) as [a s1]. simpl in Hm. by rewrite Hk.
Qed.

Lemma preservesW_when {X} (f : World -> X) (b : bool) (m : M unit) :
  preservesW f m -> preservesW f (when b m).
Proof. intros Hm. destruct b; [done|]. apply preservesW_ret. Qed.

Lemma preservesW_get_job {X} (f : World -> X) : preservesW f get_job.
Proof. by intros s. Qed.

Lemma preservesW_get_world {X} (f : World -> X) : preservesW f get_world.
Proof. by intros s. Qed.

Lemma preservesW_modify_job {X} (f : World -> X) g :
  preservesW f (modify_job g).
Proof. by intros s. Qed.

Lemma preservesW_modify_world {X} (f : World -> X) g :
  (forall w, f (g w) = f w) -> preservesW f (modify_world g).
Proof. intros H s. apply H. Qed.

Create HintDb frame.
#[export] Hint Resolve preserves_ret preserves_get_job preserves_get_world
  preserves_modify_world preserves_emit preserves_time_Now
  preservesW_ret preservesW_get_job preservesW_get_world
  preservesW_modify_job : frame.

(** Splits a computation along its binds and branches, and closes the
    leaves with the hints of [frame]. *)
Ltac frame_step :=
  match goal with
  | |- forall _, _ => intro
  | |- preserves _ (bind _ _) => apply preserves_bind
  | |- preserves _ (when _ _) => apply preserves_when
  | |- preserves _ (modify_job _) =>
      apply preserves_modify_job; intros; reflexivity
  | |- preserves _ (if ?b then _ else _) => destruct b
  | |- preserves _ (match ?x with _ => _ end) => destruct x
  | |- preserves _ _ => solve [auto with frame]
  | |- preservesW _ (bind _ _) => apply preservesW_bind
  | |- preservesW _ (when _ _) => apply preservesW_when
  | |- preservesW _ (modify_world _) =>
      apply preservesW_modify_world; intros; reflexivity
  | |- preservesW _ (emit _) =>
      apply preservesW_modify_world; intros; reflexivity
  | |- preservesW _ (if ?b then _ else _) => destruct b
  | |- preservesW _ (match ?x with _ => _ end) => destruct x
  | |- preservesW _ _ => solve [auto with frame]
  end.
Ltac frame := repeat frame_step.

(** Runs the plumbing of the monad. *)
Ltac run_monad :=
  cbv [bind ret when get_job get_world modify_job modify_world emit];
  cbn [job world fst snd].

(** Reads the fields of the collaborators through their updates. *)
Ltac run_world :=
  cbn [trace inputPos runnerCalls replayCalls clockReads randCalls
       set_trace set_inputPos set_runnerCalls set_replayCalls set_clockReads
       set_randCalls].

Tactic Notation "run_world" "in" hyp(H) :=
  cbn [trace inputPos runnerCalls replayCalls clockReads randCalls
       set_trace set_inputPos set_runnerCalls set_replayCalls set_clockReads
       set_randCalls] in H.

(** ** Go integers *)

Lemma wrap_id (z : Z) : in_int z -> wrap z = z.
Proof.
  unfold in_int, int_min, int_max, wrap. intros H.
  rewrite Z.mod_small by lia. lia.
Qed.

(** ** The queue *)

(** The index arithmetic of [DeleteQueueItem] does not overflow on a queue
    position and an index that stay within the queue. *)
Lemma DeleteQueueItem_delete (j : Job) (i : Z) :
  in_int (queuepos j + i) ->
  0 <= queuepos j + i - 1 < len (queuejobs j) ->
  len (queuejobs j) <= int_max ->
  DeleteQueueItem i j
  = Some (set_queuejobs
            (delete (Z.to_nat (queuepos j + i - 1)) (queuejobs j)) j).
Proof.
  intros Hsum Hk Hlen. unfold DeleteQueueItem, int_add, int_sub.
  rewrite (wrap_id (queuepos j + i)) by done.
  rewrite (wrap_id (queuepos j + i - 1))
    by (unfold in_int, int_min, int_max in *; lia).
  rewrite (wrap_id (queuepos j + i - 1 + 1))
    by (unfold in_int, int_min, int_max in *; lia).
  destruct (0 <=? queuepos j + i - 1) eqn:E1; [|lia].
  destruct (0 <=? queuepos j + i - 1 + 1) eqn:E3; [|lia].
  destruct (queuepos j + i - 1 + 1 <=? len (queuejobs j)) eqn:E2; [|lia].
  simpl. do 2 f_equal. rewrite delete_take_drop. do 2 f_equal. lia.
Qed.

(** C3 (as amended): with the cursor at 1 or more, [DeleteQueueItem i]
    removes the underlying element [queue[cursor-1+i]], which is
    [QueuedJobs()[i]] counted from 0 (index 0 is the current target), and
    leaves every other entry, in order, and every other field of the job. *)
Theorem DeleteQueueItem_removes_visible_from_zero (j : Job) (i : Z) :
  1 <= queuepos j ->
  0 <= i ->
  queuepos j - 1 + i < len (queuejobs j) ->
  len (queuejobs j) <= int_max ->
  let q := queuejobs j in
  let k := Z.to_nat (queuepos j - 1 + i) in
  exists visible,
    QueuedJobs j = Some visible
    /\ visible !! Z.to_nat i = q !! k
    /\ is_Some (q !! k)
    /\ DeleteQueueItem i j = Some (set_queuejobs (delete k q) j)
    /\ (forall n, (n < k)%nat -> delete k q !! n = q !! n)
    /\ (forall n, (k <= n)%nat -> delete k q !! n = q !! S n)
    /\ length (delete k q) = (length q - 1)%nat.
Proof.
  intros Hpos Hi Hk Hlen q k.
  assert (Hin : is_Some (q !! k)).
  { apply lookup_lt_is_Some. subst q k. unfold len in Hk. lia. }
  exists (drop (Z.to_nat (queuepos j - 1)) q). repeat split.
  - unfold QueuedJobs, slice_from, int_sub.
    rewrite wrap_id by (unfold in_int, int_min, int_max in *; lia).
    destruct (0 <=? queuepos j - 1) eqn:E1; [|lia].
    destruct (queuepos j - 1 <=? len (queuejobs j)) eqn:E2; [|lia].
    done.
  - rewrite lookup_drop. f_equal. subst k. lia.
  - done.
  - rewrite DeleteQueueItem_delete.
    + subst k q. do 3 f_equal. lia.
    + unfold in_int, int_min, int_max in *. lia.
    + lia.
    + done.
  - intros n Hn. by apply list_lookup_delete_lt.
  - intros n Hn. by apply list_lookup_delete_ge.
  - by apply length_delete.
Qed.

(** The theorem at the job [job_abc]: index 1 removes the first pending
    target and keeps the current one. *)
Lemma DeleteQueueItem_removes_visible_from_zero_witness :
  exists visible,
    QueuedJobs Fixtures.job_abc = Some visible
    /\ visible !! 1%nat = Some Fixtures.qb
    /\ DeleteQueueItem 1 Fixtures.job_abc
       = Some (set_queuejobs [Fixtures.qa; Fixtures.qc] Fixtures.job_abc).
Proof.
  destruct (DeleteQueueItem_removes_visible_from_zero Fixtures.job_abc 1)
    as (v & Hv & Hi & _ & Hd & _); try (vm_compute; congruence).
  exists v. split; [exact Hv|]. split; [exact Hi|exact Hd].
Defined.

(** C3 (as stated) fails: in the queue [qa; qb; qc] with the cursor at 1 the
    visible slice is the whole queue and its entry number 1, counted from 1,
    is [qa], the element [queue[cursor-1+(1-1)]]; [DeleteQueueItem 1] keeps
    [qa] and removes [qb]. *)
Lemma DeleteQueueItem_one_based_counterexample :
  let j := Fixtures.job_abc in
  let i := 1 in
  1 <= queuepos j
  /\ QueuedJobs j = Some [Fixtures.qa; Fixtures.qb; Fixtures.qc]
  /\ queuejobs j !! Z.to_nat (queuepos j - 1 + (i - 1)) = Some Fixtures.qa
  /\ (queuejobs <$> DeleteQueueItem i j) = Some [Fixtures.qa; Fixtures.qc]
  /\ (queuejobs <$> DeleteQueueItem i j)
     <> Some (delete (Z.to_nat (queuepos j - 1 + (i - 1))) (queuejobs j)).
Proof.
  vm_compute. repeat split; congruence.
Qed.

(** ** MatchEngine *)

Lemma matchers_loop_existsb ms resp acc :
  matchers_loop ms resp acc = acc || existsb (returns_true resp) ms.
Proof.
  revert acc. induction ms as [|m ms IH]; intros acc; simpl.
  - by rewrite orb_false_r.
  - unfold returns_true.
    destruct (FilterProvider.Filter m resp) as [[|] [e|]];
      rewrite IH; simpl; try done; by destruct acc.
Qed.

Lemma filters_loop_existsb fs resp :
  filters_loop fs resp = existsb (returns_true resp) fs.
Proof.
  induction fs as [|f fs IH]; simpl; [done|].
  unfold returns_true.
  by destruct (FilterProvider.Filter f resp) as [[|] [e|]]; rewrite ?IH.
Qed.

Lemma returns_true_error_as_false resp p :
  returns_true resp (error_as_false p) = returns_true resp p.
Proof.
  unfold returns_true, error_as_false. simpl.
  by destruct (FilterProvider.Filter p resp) as [[|] [e|]].
Qed.

Lemma existsb_returns_true resp ps :
  existsb (returns_true resp) ps = true
  <-> exists p, p ∈ ps /\ FilterProvider.Filter p resp = (true, None).
Proof.
  rewrite existsb_exists. split; intros (p & Hin & Hp); exists p.
  - split; [by apply list_elem_of_In|].
    unfold returns_true in Hp.
    by destruct (FilterProvider.Filter p resp) as [[|] [e|]].
  - split; [by apply list_elem_of_In|]. unfold returns_true. by rewrite Hp.
Qed.

(** The value of [isMatch], apart from its calls of the release hook. *)
Lemma isMatch_value resp s :
  fst (isMatch resp s)
  = existsb (returns_true resp) (Config.Matchers (Config (job s)))
    && negb (existsb (returns_true resp) (Config.Filters (Config (job s)))).
Proof.
  unfold isMatch, bind, get_job. simpl.
  rewrite matchers_loop_existsb, filters_loop_existsb. simpl.
  destruct (existsb _ (Config.Matchers _)); simpl; [|done].
  by destruct (existsb _ (Config.Filters _)).
Qed.

(** C6: [isMatch] accepts a response iff some matcher returns true on it and
    no filter does; without a matcher that returns true it rejects whatever
    the filters are; and a matcher or filter that returns an error counts as
    one that returns false. *)
Theorem isMatch_matchers_any_filters_none (resp : Response.t) (s : State) :
  let ms := Config.Matchers (Config (job s)) in
  let fs := Config.Filters (Config (job s)) in
  (fst (isMatch resp s) = true
   <-> (exists m, m ∈ ms /\ FilterProvider.Filter m resp = (true, None))
       /\ (forall f, f ∈ fs -> FilterProvider.Filter f resp <> (true, None)))
  /\ ((forall m, m ∈ ms -> FilterProvider.Filter m resp <> (true, None))
      -> fst (isMatch resp s) = false)
  /\ (forall c',
        Config.Matchers c' = map error_as_false ms ->
        Config.Filters c' = map error_as_false fs ->
        fst (isMatch resp (mkState (set_Config c' (job s)) (world s)))
        = fst (isMatch resp s)).
Proof.
  intros ms fs.
  assert (Hno : forall ps,
    (forall p, p ∈ ps -> FilterProvider.Filter p resp <> (true, None))
    <-> existsb (returns_true resp) ps = false).
  { intros ps. split.
    - intros H. apply not_true_is_false.
      intros (p & Hin & Hx)%existsb_returns_true. by apply (H p).
    - intros H p Hin Hx.
      assert (existsb (returns_true resp) ps = true); [|congruence].
      apply existsb_returns_true. eauto. }
  split; [|split].
  - rewrite isMatch_value, andb_true_iff, negb_true_iff.
    fold ms fs. by rewrite existsb_returns_true, Hno.
  - intros H. rewrite isMatch_value. fold ms.
    apply Hno in H. by rewrite H.
  - intros c' Hms Hfs. rewrite !isMatch_value. simpl.
    rewrite Hms, Hfs. fold ms fs.
    assert (Hext : forall ps,
      existsb (returns_true resp) (map error_as_false ps)
      = existsb (returns_true resp) ps).
    { induction ps as [|p ps IH]; simpl; [done|].
      by rewrite returns_true_error_as_false, IH. }
    by rewrite !Hext.
Qed.

(** ** Recursion *)

Lemma append_assoc (s1 s2 s3 : string) :
  (s1 +:+ s2) +:+ s3 = s1 +:+ (s2 +:+ s3).
Proof.
  induction s1 as [|c s1 IH]; [done|].
  change (String c ((s1 +:+ s2) +:+ s3) = String c (s1 +:+ (s2 +:+ s3))).
  by rewrite IH.
Qed.

Lemma depth_allows_test (j : Job) :
  (Config.RecursionDepth (Config j) =? 0)
  || (currentDepth j <? Config.RecursionDepth (Config j)) = true
  <-> depth_allows j.
Proof.
  unfold depth_allows. rewrite orb_true_iff, Z.eqb_eq, Z.ltb_lt. done.
Qed.

Lemma handleGreedyRecursionJob_queue resp s :
  queuejobs (job (snd (handleGreedyRecursionJob resp s)))
  = if (Config.RecursionDepth (Config (job s)) =? 0)
       || (currentDepth (job s) <? Config.RecursionDepth (Config (job s)))
    then queuejobs (job s) ++ [recursion_target (job s) resp]
    else queuejobs (job s).
Proof.
  unfold handleGreedyRecursionJob, bind, get_job, recursion_target. simpl.
  destruct (_ || _); simpl; [|done].
  by rewrite append_assoc.
Qed.

Lemma handleDefaultRecursionJob_queue resp s :
  queuejobs (job (snd (handleDefaultRecursionJob resp s)))
  = if String.eqb (Request.Url (Response.Request resp) +:+ "/")
         (Response.GetRedirectLocation resp true)
       && ((Config.RecursionDepth (Config (job s)) =? 0)
           || (currentDepth (job s)
                 <? Config.RecursionDepth (Config (job s))))
    then queuejobs (job s) ++ [recursion_target (job s) resp]
    else queuejobs (job s).
Proof.
  unfold handleDefaultRecursionJob, bind, get_job, recursion_target. simpl.
  destruct (String.eqb _ _); simpl; [|done].
  destruct (_ || _); simpl; [|done].
  by rewrite append_assoc.
Qed.

(** C8: a recursion handler, greedy or default, leaves the queue as it is or
    appends one target; it appends only if [RecursionDepth == 0] or
    [currentDepth < RecursionDepth]; the target has the url
    [resp.Request.Url + "/FUZZ"] and the depth [currentDepth + 1]; so with a
    bound [RecursionDepth > 0] the depth of the target is at most the bound,
    and a queue whose depths are within the bound stays so. *)
Theorem recursion_handlers_respect_depth (resp : Response.t) (s : State)
    (h : Response.t -> M unit) :
  h = handleGreedyRecursionJob \/ h = handleDefaultRecursionJob ->
  in_int (currentDepth (job s)) ->
  in_int (Config.RecursionDepth (Config (job s))) ->
  let j := job s in
  let j' := job (snd (h resp s)) in
  let D := Config.RecursionDepth (Config j) in
  (queuejobs j' = queuejobs j
   \/ (depth_allows j
       /\ exists q, queuejobs j' = queuejobs j ++ [q]
          /\ QueueJob.Url q = Request.Url (Response.Request resp) +:+ "/FUZZ"
          /\ QueueJob.depth q = int_add (currentDepth j) 1
          /\ (currentDepth j < int_max ->
              QueueJob.depth q = currentDepth j + 1)
          /\ (0 < D -> QueueJob.depth q = currentDepth j + 1
                       /\ QueueJob.depth q <= D)))
  /\ (0 < D ->
      Forall (fun q => QueueJob.depth q <= D) (queuejobs j) ->
      Forall (fun q => QueueJob.depth q <= D) (queuejobs j')).
Proof.
  intros Hh Hcur HD j j' D.
  assert (Hbound : depth_allows j -> 0 < D ->
            int_add (currentDepth j) 1 = currentDepth j + 1
            /\ int_add (currentDepth j) 1 <= D).
  { intros [H0|Hlt] HD0; [subst D; lia|]. fold D in Hlt.
    unfold int_add. rewrite wrap_id; [lia|].
    unfold in_int, int_min, int_max in *. fold j D in Hcur, HD. lia. }
  assert (Hq : queuejobs j' = queuejobs j
               \/ (depth_allows j
                   /\ queuejobs j' = queuejobs j ++ [recursion_target j resp])).
  { subst j'. destruct Hh as [-> | ->].
    - rewrite handleGreedyRecursionJob_queue.
      destruct (_ || _) eqn:E; [right|by left].
      split; [by apply depth_allows_test|done].
    - rewrite handleDefaultRecursionJob_queue.
      destruct (String.eqb _ _); simpl; [|by left].
      destruct (_ || _) eqn:E; [right|by left].
      split; [by apply depth_allows_test|done]. }
  split.
  - destruct Hq as [Hq|[Hallow Hq]]; [by left|right].
    split; [done|]. exists (recursion_target j resp).
    split; [done|]. split; [done|]. split; [done|]. split.
    + intros Hmax. simpl. unfold int_add. rewrite wrap_id; [done|].
      unfold in_int, int_min, int_max in *. fold j in Hcur. lia.
    + intros HD0. by apply Hbound.
  - intros HD0 Hall. destruct Hq as [-> | [Hallow ->]]; [done|].
    apply Forall_app. split; [done|].
    apply Forall_singleton. simpl. by apply Hbound.
Qed.

(** ** The worker: what its blocks leave unchanged *)

Lemma bind_snd {A B} (m : M A) (k : A -> M B) s :
  snd (bind m k s) = snd (k (fst (m s)) (snd (m s))).
Proof. unfold bind. by destruct (m s). Qed.

Lemma isMatch_job resp s : job (snd (isMatch resp s)) = job s.
Proof.
  unfold isMatch, bind, get_job. simpl.
  destruct (negb _); [done|]. by destruct (filters_loop _ _).
Qed.

Ltac unfold_worker :=
  unfold countStatus, emitMatch, replay, updateProgress, incError, inc403,
    inc429, resetSpuriousErrors, Replay_Prepare, Replay_Execute,
    Runner_Prepare, Runner_Execute, handleGreedyRecursionJob,
    handleDefaultRecursionJob.

Section Frame.

Variable env : Env.
Variables (input : InputMap) (position : Z) (resp : Response.t).

Lemma countStatus_Config : preserves Config (countStatus resp).
Proof. unfold_worker. frame. Qed.

Lemma countStatus_currentDepth : preserves currentDepth (countStatus resp).
Proof. unfold_worker. frame. Qed.

Lemma countStatus_queuejobs : preserves queuejobs (countStatus resp).
Proof. unfold_worker. frame. Qed.

Lemma countStatus_ErrorCounter : preserves ErrorCounter (countStatus resp).
Proof. unfold_worker. frame. Qed.

Lemma emitMatch_Config :
  preserves Config (emitMatch env input position resp).
Proof. unfold_worker. frame. Qed.

Lemma emitMatch_currentDepth :
  preserves currentDepth (emitMatch env input position resp).
Proof. unfold_worker. frame. Qed.

Lemma replay_Config : preserves Config (replay env input position).
Proof. unfold_worker. frame. Qed.

Lemma replay_queuejobs : preserves queuejobs (replay env input position).
Proof. unfold_worker. frame. Qed.

Lemma updateProgress_job s : job (snd (updateProgress env s)) = job s.
Proof. done. Qed.

(** Only the greedy strategy lets a match extend the queue. *)
Lemma emitMatch_queuejobs_not_greedy s :
  String.eqb (Config.RecursionStrategy (Config (job s))) "greedy" = false ->
  queuejobs (job (snd (emitMatch env input position resp s)))
  = queuejobs (job s).
Proof.
  intros Hs. unfold emitMatch. rewrite !bind_snd.
  unfold get_job at 1 2. cbn [fst snd].
  rewrite (updateProgress_job _). cbn [emit modify_world fst snd job].
  rewrite replay_Config, Hs, andb_false_r. cbn [when ret snd].
  unfold get_job. cbn [snd].
  rewrite (updateProgress_job _). cbn [job]. apply replay_queuejobs.
Qed.

End Frame.

(** ** Default recursion *)

Lemma nonempty_test (x : string) :
  (Z.of_nat (String.length x) >? 0) = true <-> x <> "".
Proof.
  destruct x as [|c x]; cbn [String.length].
  - split; [discriminate|done].
  - split; [done|]. intros _. apply Z.gtb_lt. lia.
Qed.

Section DefaultRecursion.

Variable env : Env.
Variables (input : InputMap) (position : Z) (resp : Response.t).

Lemma processResponse_snd s :
  snd (processResponse env input position resp s)
  = snd (defaultRecursion resp
           (before_defaultRecursion env input position resp s)).
Proof.
  unfold processResponse, before_defaultRecursion.
  by rewrite !bind_snd.
Qed.

Lemma before_defaultRecursion_Config s :
  Config (job (before_defaultRecursion env input position resp s))
  = Config (job s).
Proof.
  unfold before_defaultRecursion. cbn [emit modify_world snd job].
  destruct (fst (isMatch resp _)); cbn [when ret snd].
  - by rewrite emitMatch_Config, isMatch_job, countStatus_Config.
  - by rewrite isMatch_job, countStatus_Config.
Qed.

Lemma before_defaultRecursion_currentDepth s :
  currentDepth (job (before_defaultRecursion env input position resp s))
  = currentDepth (job s).
Proof.
  unfold before_defaultRecursion. cbn [emit modify_world snd job].
  destruct (fst (isMatch resp _)); cbn [when ret snd].
  - by rewrite emitMatch_currentDepth, isMatch_job, countStatus_currentDepth.
  - by rewrite isMatch_job, countStatus_currentDepth.
Qed.

Lemma before_defaultRecursion_queuejobs s :
  Config.RecursionStrategy (Config (job s)) = "default" ->
  queuejobs (job (before_defaultRecursion env input position resp s))
  = queuejobs (job s).
Proof.
  intros Hs.
  unfold before_defaultRecursion. cbn [emit modify_world snd job].
  destruct (fst (isMatch resp _)); cbn [when ret snd].
  - rewrite emitMatch_queuejobs_not_greedy.
    + by rewrite isMatch_job, countStatus_queuejobs.
    + by rewrite isMatch_job, countStatus_Config, Hs.
  - by rewrite isMatch_job, countStatus_queuejobs.
Qed.

(** C7: under the default strategy the last statement of [runTask] calls
    the handler exactly on a response whose raw redirect location is not
    empty; the handler appends a target iff the absolute redirect location
    is [resp.Request.Url + "/"] and the depth budget allows; and the queue
    after [runTask] has processed the response is the queue before it with
    that target appended when all three hold, the queue before it
    otherwise. *)
Theorem default_recursion_on_directory_redirect (s : State) :
  Config.Recursion (Config (job s)) = true ->
  Config.RecursionStrategy (Config (job s)) = "default" ->
  let j := job s in
  let url := Request.Url (Response.Request resp) in
  let raw_nonempty := Response.GetRedirectLocation resp false <> "" in
  let directory := Response.GetRedirectLocation resp true = url +:+ "/" in
  (* the call of the handler *)
  (raw_nonempty ->
   defaultRecursion resp s = handleDefaultRecursionJob resp s)
  /\ (~ raw_nonempty -> defaultRecursion resp s = (tt, s))
  (* the handler *)
  /\ (directory /\ depth_allows j ->
      queuejobs (job (snd (handleDefaultRecursionJob resp s)))
      = queuejobs j ++ [recursion_target j resp])
  /\ (~ (directory /\ depth_allows j) ->
      queuejobs (job (snd (handleDefaultRecursionJob resp s)))
      = queuejobs j)
  (* the worker *)
  /\ (raw_nonempty /\ directory /\ depth_allows j ->
      queuejobs (job (snd (processResponse env input position resp s)))
      = queuejobs j ++ [recursion_target j resp])
  /\ (~ (raw_nonempty /\ directory /\ depth_allows j) ->
      queuejobs (job (snd (processResponse env input position resp s)))
      = queuejobs j).
Proof.
  intros Hrec Hstrat j url raw_nonempty directory.
  assert (Hcall : forall s0,
    Config (job s0) = Config j ->
    defaultRecursion resp s0
    = if Z.of_nat (String.length (Response.GetRedirectLocation resp false))
           >? 0
      then handleDefaultRecursionJob resp s0 else (tt, s0)).
  { intros s0 Hc. unfold defaultRecursion, bind, get_job. cbn [fst snd].
    rewrite Hc. fold j in Hrec, Hstrat. rewrite Hrec, Hstrat.
    by destruct (_ >? 0). }
  assert (Hhandler : forall s0,
    Config (job s0) = Config j -> currentDepth (job s0) = currentDepth j ->
    queuejobs (job s0) = queuejobs j ->
    (directory /\ depth_allows j ->
     queuejobs (job (snd (handleDefaultRecursionJob resp s0)))
     = queuejobs j ++ [recursion_target j resp])
    /\ (~ (directory /\ depth_allows j) ->
        queuejobs (job (snd (handleDefaultRecursionJob resp s0)))
        = queuejobs j)).
  { intros s0 Hc Hd Hq. rewrite handleDefaultRecursionJob_queue.
    unfold recursion_target. rewrite Hc, Hd, Hq. fold url.
    pose proof (depth_allows_test j) as Ht.
    destruct (String.eqb _ _) eqn:E.
    - apply String.eqb_eq in E.
      destruct (_ || _); simpl; split; try done.
      + intros H. exfalso. apply H. split; [done|]. by apply Ht.
      + intros [_ Ha]. apply Ht in Ha. done.
    - apply String.eqb_neq in E. simpl. split; [|done].
      intros [Hdir _]. unfold directory in Hdir. congruence. }
  pose proof (nonempty_test (Response.GetRedirectLocation resp false)) as Hne.
  split; [|split; [|split; [|split; [|split]]]].
  - intros Hr. rewrite Hcall by done. apply Hne in Hr. by rewrite Hr.
  - intros Hr. rewrite Hcall by done.
    destruct (_ >? 0); [|done]. exfalso. apply Hr. by apply Hne.
  - by apply Hhandler.
  - by apply Hhandler.
  - intros (Hr & Hdir & Ha). rewrite processResponse_snd.
    rewrite Hcall by apply before_defaultRecursion_Config.
    apply Hne in Hr. rewrite Hr.
    apply Hhandler; auto using before_defaultRecursion_Config,
      before_defaultRecursion_currentDepth,
      before_defaultRecursion_queuejobs.
  - intros Hn. rewrite processResponse_snd.
    rewrite Hcall by apply before_defaultRecursion_Config.
    destruct (_ >? 0) eqn:E.
    + apply Hhandler; auto using before_defaultRecursion_Config,
        before_defaultRecursion_currentDepth,
        before_defaultRecursion_queuejobs.
      intros [Hdir Ha]. apply Hn. split; [|done]. by apply Hne.
    + cbn [snd]. by apply before_defaultRecursion_queuejobs.
Qed.

End DefaultRecursion.

(** ** Retry policy *)

Section Retry.

Variable env : Env.
Variables (input : InputMap) (position : Z).

Lemma replay_ErrorCounter s :
  ErrorCounter (job (snd (replay env input position s)))
  = if replay_prepare_fails env (Config (job s)) input (replayCalls (world s))
    then int_add (ErrorCounter (job s)) 1
    else ErrorCounter (job s).
Proof.
  unfold replay, replay_prepare_fails.
  destruct (ReplayRunner env) as [rr|]; [|done].
  unfold Replay_Prepare. run_monad.
  by destruct (snd (RunnerProvider.Prepare rr _ _ input)).
Qed.

Lemma handleGreedyRecursionJob_ErrorCounter resp :
  preserves ErrorCounter (handleGreedyRecursionJob resp).
Proof. unfold_worker. frame. Qed.

Lemma defaultRecursion_ErrorCounter resp :
  preserves ErrorCounter (defaultRecursion resp).
Proof. unfold defaultRecursion. unfold_worker. frame. Qed.

Lemma emitMatch_ErrorCounter resp s :
  ErrorCounter (job (snd (emitMatch env input position resp s)))
  = if replay_prepare_fails env (Config (job s)) input (replayCalls (world s))
    then int_add (ErrorCounter (job s)) 1
    else ErrorCounter (job s).
Proof.
  unfold emitMatch. rewrite !bind_snd.
  unfold get_job. cbn [fst snd].
  rewrite preserves_when by apply handleGreedyRecursionJob_ErrorCounter.
  rewrite (updateProgress_job _). cbn [emit modify_world fst snd job].
  apply replay_ErrorCounter.
Qed.

Lemma countStatus_world resp s : world (snd (countStatus resp s)) = world s.
Proof.
  revert s. change (preservesW (fun w => w) (countStatus resp)).
  unfold_worker. frame.
Qed.

Lemma isMatch_replayCalls resp : preservesW replayCalls (isMatch resp).
Proof. unfold isMatch. frame. Qed.


(** [runTask] counts an error after a response exactly when the response
    matched and its replay could not be prepared. *)
Lemma processResponse_ErrorCounter resp s :
  ErrorCounter (job (snd (processResponse env input position resp s)))
  = if fst (isMatch resp s)
       && replay_prepare_fails env (Config (job s)) input (replayCalls (world s))
    then int_add (ErrorCounter (job s)) 1
    else ErrorCounter (job s).
Proof.
  unfold processResponse. rewrite !bind_snd.
  rewrite defaultRecursion_ErrorCounter. cbn [emit modify_world snd job].
  assert (Hm : fst (isMatch resp (snd (countStatus resp s)))
               = fst (isMatch resp s)).
  { by rewrite !isMatch_value, countStatus_Config. }
  rewrite Hm. destruct (fst (isMatch resp s)); cbn [when ret snd andb].
  - rewrite emitMatch_ErrorCounter, isMatch_replayCalls, isMatch_job.
    by rewrite countStatus_world, !countStatus_ErrorCounter,
      countStatus_Config.
  - by rewrite isMatch_job, countStatus_ErrorCounter.
Qed.




Lemma runTask_execute_ok retried s :
  prepare_error env (Config (job s)) input (runnerCalls (world s)) = None ->
  snd (execute_at env (Config (job s)) input position (runnerCalls (world s))) = None ->
  runTask env input position retried s
  = processResponse env input position
      (fst (execute_at env (Config (job s)) input position (runnerCalls (world s)))) (after_calls 2 s).
Proof.
  intros Hp He. unfold prepare_error in Hp.
  unfold execute_at, request_at in He.
  unfold runTask, runTask_body at 1, Runner_Prepare, Runner_Execute.
  run_monad. rewrite Hp. run_monad. run_world. by rewrite He.
Qed.

(** A call with [retried = true] never calls itself. *)
Lemma runTask_body_retried f g s :
  runTask_body env f input position true s
  = runTask_body env g input position true s.
Proof.
  unfold runTask_body, Runner_Prepare, Runner_Execute. run_monad.
  destruct (snd (RunnerProvider.Prepare _ _ _ _)); [done|].
  run_monad. by destruct (snd (RunnerProvider.Execute _ _ _)).
Qed.

(** [runTask] is the body of the source with itself as the callee. *)
Lemma runTask_equation retried s :
  runTask env input position retried s
  = runTask_body env (runTask env) input position retried s.
Proof.
  unfold runTask at 1. unfold runTask_body at 1 3.
  unfold Runner_Prepare, Runner_Execute. run_monad.
  destruct (snd (RunnerProvider.Prepare _ _ _ _)); [done|].
  run_monad. destruct (snd (RunnerProvider.Execute _ _ _)); [|done].
  destruct retried; [done|]. apply runTask_body_retried.
Qed.


End Retry.

(** ** The release hook *)

Lemma freed_snoc tr e :
  freed (tr ++ [e])
  = freed tr ++ match e with MakeFreeMemory r => [r] | _ => [] end.
Proof. unfold freed. rewrite omap_app. by destruct e. Qed.

Lemma freed_emit_other e :
  is_MakeFreeMemory e = false ->
  preservesW (fun w => freed (trace w)) (emit e).
Proof.
  intros He s. cbn. rewrite freed_snoc.
  destruct e; try discriminate; by rewrite app_nil_r.
Qed.

Ltac frame_freed :=
  repeat first
    [ apply freed_emit_other; reflexivity
    | frame_step ].

Section Release.

Variable env : Env.
Variables (input : InputMap) (position : Z).

Lemma isMatch_freed resp s :
  freed (trace (world (snd (isMatch resp s))))
  = freed (trace (world s)) ++ [resp].
Proof.
  unfold isMatch. run_monad.
  destruct (negb _); [|destruct (filters_loop _ _)];
    run_monad; run_world; by rewrite freed_snoc.
Qed.

Lemma emitMatch_freed resp :
  preservesW (fun w => freed (trace w)) (emitMatch env input position resp).
Proof. unfold_worker. frame_freed. Qed.

Lemma defaultRecursion_freed resp :
  preservesW (fun w => freed (trace w)) (defaultRecursion resp).
Proof. unfold defaultRecursion. unfold_worker. frame_freed. Qed.

(** After a successful [Execute], [runTask] calls the release hook of the
    response twice: in [isMatch] and after the classification. *)
Lemma processResponse_freed resp s :
  freed (trace (world (snd (processResponse env input position resp s))))
  = freed (trace (world s)) ++ [resp; resp].
Proof.
  unfold processResponse. rewrite !bind_snd.
  rewrite (defaultRecursion_freed _ _).
  cbn [emit modify_world snd world]. run_world. rewrite freed_snoc.
  assert (Hm : freed (trace (world
                 (snd (when (fst (isMatch resp (snd (countStatus resp s))))
                         (emitMatch env input position resp)
                         (snd (isMatch resp (snd (countStatus resp s))))))))
               = freed (trace (world s)) ++ [resp]).
  { destruct (fst (isMatch resp _)); cbn [when ret snd].
    - rewrite (emitMatch_freed _ _).
      by rewrite isMatch_freed, countStatus_world.
    - by rewrite isMatch_freed, countStatus_world. }
  rewrite Hm. by rewrite <- app_assoc.
Qed.

(** C2 (as amended): [runTask] calls the release hook of a response that
    the runner returned exactly twice, whether the response is matched,
    filtered or no candidate; [CalibrateResponses] calls it three times
    for a response it accepts and twice for one it rejects, and goes on
    with the next input. *)
Theorem release_hook_called_twice_or_thrice (retried : bool) (s : State) :
  let n := runnerCalls (world s) in
  (prepare_error env (Config (job s)) input n = None ->
   snd (execute_at env (Config (job s)) input position n) = None ->
   let r := fst (execute_at env (Config (job s)) input position n) in
   freed (trace (world (snd (runTask env input position retried s))))
   = freed (trace (world s)) ++ [r; r])
  /\ (forall (cinput : string) (rest : list string)
             (results : list Response.t),
        let inputs : InputMap :=
          map (fun kw => (kw, cinput))
            (Config.InputProviders (Config (job s))) in
        let pr :=
        RunnerProvider.Prepare (Runner env) n (Config (job s)) inputs in
        let ex := RunnerProvider.Execute (Runner env) (S n) (fst pr) in
        snd pr = None ->
        snd ex = None ->
        let r := fst ex in
        let accepted := fst (isMatch r s) in
        exists s',
          calibrate_loop env (cinput :: rest) results s
          = calibrate_loop env rest
              (if accepted then results ++ [r] else results) s'
          /\ freed (trace (world s'))
             = freed (trace (world s))
                 ++ (if accepted then [r; r; r] else [r; r])).
Proof.
  intros n. split.
  - intros Hp He r. rewrite runTask_execute_ok by done.
    by rewrite processResponse_freed.
  - intros cinput rest results inputs pr ex Hp He r accepted.
    cbn [calibrate_loop]. unfold Runner_Prepare, Runner_Execute.
    run_monad. fold inputs n pr. rewrite Hp. run_monad. run_world.
    fold ex. rewrite He. fold r.
    set (s1 := mkState (job s) _).
    assert (Hacc : fst (isMatch r s1) = accepted).
    { unfold accepted. by rewrite !isMatch_value. }
    pose proof (isMatch_freed r s1) as Hfreed.
    change (freed (trace (world (snd (isMatch r s1))))
            = freed (trace (world s)) ++ [r]) in Hfreed.
    destruct (isMatch r s1) as [m s2]. cbn [fst snd] in *. subst m.
    destruct accepted; run_monad; run_world.
    + eexists. split; [done|]. cbn [world]. run_world.
      rewrite !freed_snoc, Hfreed. by rewrite <- !app_assoc.
    + eexists. split; [done|]. cbn [world]. run_world.
      rewrite !freed_snoc, Hfreed. by rewrite <- !app_assoc.
Qed.

End Release.

(** The theorem on a run: one word, a runner that succeeds, a matcher that
    accepts. *)
Lemma release_hook_called_twice_or_thrice_witness :
  let e := Fixtures.env (Fixtures.runner Fixtures.never) None
             [Fixtures.word "a"] in
  let s := Fixtures.state (Fixtures.conf [Fixtures.match_all] []) in
  freed (trace (world (snd (runTask e (Fixtures.word "a") 0 false s))))
  = [Fixtures.resp_a; Fixtures.resp_a].
Proof.
  intros e s.
  exact (proj1 (release_hook_called_twice_or_thrice e (Fixtures.word "a") 0
                  false s) eq_refl eq_refl).
Defined.

(** C2 (as stated) fails: the runner returns one response to [runTask], two
    calls are made on the runner (Prepare, Execute), and the release hook of
    the response is called twice, not once. *)
Lemma release_hook_once_counterexample :
  let e := Fixtures.env (Fixtures.runner Fixtures.never) None
             [Fixtures.word "a"] in
  let s := Fixtures.state (Fixtures.conf [Fixtures.status_is 404] []) in
  let s' := snd (runTask e (Fixtures.word "a") 0 false s) in
  runnerCalls (world s') = 2%nat
  /\ freed (trace (world s')) = [Fixtures.resp_a; Fixtures.resp_a]
  /\ count_events is_MakeFreeMemory (trace (world s')) <> 1%nat.
Proof. vm_compute. repeat split; congruence. Qed.

(** ** Stop, Next and the timeouts *)


Section Timeouts.

Variable env : Env.

(** The order of the checks in [CheckStop]. *)
Lemma CheckStop_phases s :
  let s1 := snd ((let* j := get_job in
                  when (Counter j >? 50) checkAdaptive) s) in
  let s2 := snd (checkMaxTime env s1) in
  CheckStop env s = checkMaxTimeJob env s2.
Proof.
  unfold CheckStop, bind, get_job. cbn [snd].
  destruct (when _ _ s) as [u s1]. cbn [snd].
  by destruct (checkMaxTime env s1).
Qed.


End Timeouts.

(** ** Reset *)

Section ResetFrame.

Variable env : Env.

(** The adaptive checks do not depend on the collaborators, and read the
    counters of the job only. *)
Lemma check403_Running s :
  Running (job (snd (check403 s)))
  = Running (job s)
    && negb ((Config.StopOn403 (Config (job s))
              || Config.StopOnAll (Config (job s)))
             && ratio_gt (Count403 (job s)) (Counter (job s)) f0_95).
Proof.
  unfold check403, Stop. run_monad.
  destruct (_ || _); cbn [andb]; [|by rewrite andb_true_r].
  destruct (ratio_gt _ _ _); cbn [negb]; run_monad.
  - by rewrite andb_false_r.
  - by rewrite andb_true_r.
Qed.

Lemma checkErrors_Running s :
  Running (job (snd (checkErrors s)))
  = Running (job s)
    && negb ((Config.StopOnErrors (Config (job s))
              || Config.StopOnAll (Config (job s)))
             && (SpuriousErrorCounter (job s)
                   >? int_mul (Config.Threads (Config (job s))) 2)).
Proof.
  unfold checkErrors, Stop. run_monad.
  destruct (_ || _); cbn [andb]; [|by rewrite andb_true_r].
  destruct (_ >? _); cbn [negb]; run_monad.
  - by rewrite andb_false_r.
  - by rewrite andb_true_r.
Qed.

Lemma check429_Running s :
  Running (job (snd (check429 s)))
  = Running (job s)
    && negb (Config.StopOnAll (Config (job s))
             && ratio_gt (Count429 (job s)) (Counter (job s)) f0_2).
Proof.
  unfold check429, Stop. run_monad.
  destruct (_ && _); cbn [negb]; run_monad.
  - by rewrite andb_false_r.
  - by rewrite andb_true_r.
Qed.

(** C10: [Reset] sets [Counter] to 0, [skipQueue] to false and
    [startTimeJob] to the time it reads, resets the input provider and
    cycles or resets the output; every other field of the job keeps its
    value, among them the error counters, the 403 and 429 counters, the
    queue and its cursor.  So when the dispatcher has counted [k] inputs
    of the new target, the adaptive checks compare the counts that were
    accumulated over the earlier targets with [k]. *)
Theorem Reset_keeps_cumulative_counters (cycle : bool) (s : State) :
  let j := job s in
  let s' := snd (Reset env cycle s) in
  let t := clock env (clockReads (world s)) in
  job s' = set_startTimeJob t (set_skipQueue false (set_Counter 0 j))
  /\ (Counter (job s') = 0 /\ skipQueue (job s') = false
      /\ startTimeJob (job s') = t)
  /\ inputPos (world s') = -1
  /\ trace (world s')
     = trace (world s) ++ [InputReset; if cycle then OutCycle else OutReset]
  /\ (ErrorCounter (job s') = ErrorCounter j
      /\ SpuriousErrorCounter (job s') = SpuriousErrorCounter j
      /\ Count403 (job s') = Count403 j
      /\ Count429 (job s') = Count429 j
      /\ queuejobs (job s') = queuejobs j
      /\ queuepos (job s') = queuepos j)
  /\ (forall k : Z,
        let sk := mkState (set_Counter k (job s')) (world s') in
        Running (job (snd (check403 sk)))
        = Running j
          && negb ((Config.StopOn403 (Config j)
                    || Config.StopOnAll (Config j))
                   && ratio_gt (Count403 j) k f0_95)
        /\ Running (job (snd (checkErrors sk)))
           = Running j
             && negb ((Config.StopOnErrors (Config j)
                       || Config.StopOnAll (Config j))
                      && (SpuriousErrorCounter j
                            >? int_mul (Config.Threads (Config j)) 2))
        /\ Running (job (snd (check429 sk)))
           = Running j
             && negb (Config.StopOnAll (Config j)
                      && ratio_gt (Count429 j) k f0_2)).
Proof.
  intros j s' t.
  assert (Hjob : job s'
                 = set_startTimeJob t (set_skipQueue false (set_Counter 0 j))).
  { subst s'. unfold Reset, Input_Reset, time_Now. run_monad.
    by destruct cycle. }
  assert (Hworld : inputPos (world s') = -1
                   /\ trace (world s')
                      = trace (world s)
                          ++ [InputReset;
                              if cycle then OutCycle else OutReset]).
  { subst s'. unfold Reset, Input_Reset, time_Now. run_monad.
    destruct cycle; run_monad; run_world; by rewrite <- app_assoc. }
  clearbody s'. split; [done|]. rewrite Hjob.
  split; [done|]. split; [apply Hworld|]. split; [apply Hworld|].
  split; [done|].
  intros k sk. subst sk.
  by rewrite check403_Running, checkErrors_Running, check429_Running.
Qed.

End ResetFrame.

(** ** Finalize in the dispatcher *)

Lemma count_events_snoc p tr e :
  count_events p (tr ++ [e]) = (count_events p tr + if p e then 1 else 0)%nat.
Proof.
  unfold count_events. rewrite List.filter_app, length_app. simpl.
  by destruct (p e).
Qed.

Lemma count_emit_other p e :
  p e = false -> preservesW (fun w => count_events p (trace w)) (emit e).
Proof.
  intros He s. unfold emit, modify_world. cbn [snd world]. run_world.
  rewrite count_events_snoc, He. lia.
Qed.

Ltac frame_count :=
  repeat first
    [ apply count_emit_other; reflexivity
    | frame_step ].

Ltac unfold_engine :=
  unfold CheckStop, checkAdaptive, check403, checkErrors, check429,
    checkMaxTime, checkMaxTimeJob, Stop, Next, time_Now,
    runTask, runTask_body, processResponse, defaultRecursion, isMatch;
  unfold_worker.

Section FinalizeCount.
Variable env : Env.

Lemma CheckStop_finalize :
  preservesW (fun w => count_events is_Finalize (trace w)) (CheckStop env).
Proof. unfold_engine. frame_count. Qed.


Lemma CheckStop_inputPos : preservesW inputPos (CheckStop env).
Proof. unfold_engine. frame. Qed.

Lemma runTask_inputPos input position retried :
  preservesW inputPos (runTask env input position retried).
Proof. unfold_engine. frame. Qed.


Lemma dispatch_body_inputPos : preservesW inputPos (dispatch_body env).
Proof.
  unfold dispatch_body, Input_Value, Input_Position, Output_Finalize.
  repeat first
    [ apply CheckStop_inputPos | apply runTask_inputPos | frame_step ].
Qed.

Lemma dispatch_enough_fuel (fuel : nat) (s : State) :
  (Z.to_nat (len (wordlist env) - inputPos (world s)) <= fuel)%nat ->
  (0 < fuel)%nat ->
  exists r, dispatch env fuel s = Ok r.
Proof.
  revert s. induction fuel as [|fuel IH]; intros s Hf H0; [lia|].
  cbn [dispatch]. unfold Input_Next. run_monad. run_world.
  destruct (inputPos (world s) + 1 <? len (wordlist env)) eqn:E;
    cbn [andb]; [|by eexists].
  destruct (negb (skipQueue (job s))); [|by eexists].
  match goal with
  | |- context [dispatch_body env ?st] =>
      pose proof (dispatch_body_inputPos st) as Hp;
      destruct (dispatch_body env st) as [r s2]
  end.
  cbn [snd world] in Hp. run_world in Hp.
  destruct r as [e|]; [by eexists|].
  apply IH; lia.
Qed.
(** [startExecution] returns when the fuel exceeds the number of values of
    the input provider. *)
Lemma startExecution_enough_fuel (fuel : nat) (s : State) :
  (Z.to_nat (len (wordlist env) - inputPos (world s)) <= fuel)%nat ->
  (0 < fuel)%nat ->
  exists s', startExecution env fuel s = Ok s'.
Proof.
  intros Hf H0. unfold startExecution. run_monad.
  destruct (queuepos (job s) >? 1);
    match goal with
    | |- context [dispatch env fuel ?st] =>
        destruct (dispatch_enough_fuel fuel st) as [[r s1] Hd];
          [done|done|]
    end;
    rewrite Hd; destruct r; by eexists.
Qed.

End FinalizeCount.

(** C1 on a run over the words "a" and "b", neither matched: [Start]
    returns, [Output.Finalize] was called three times, the first time as
    the third call on the collaborators, in the dispatch loop, before any
    worker ran. *)
Lemma Start_calls_Finalize_per_input :
  let e := Fixtures.env (Fixtures.runner Fixtures.never) None
             [Fixtures.word "a"; Fixtures.word "b"] in
  let s := Fixtures.state (Fixtures.conf [Fixtures.status_is 404] []) in
  exists s',
    Start e 3 s = Ok s'
    /\ Counter (job s') = 2
    /\ count_events is_Finalize (trace (world s')) = 3%nat
    /\ take 3 (trace (world s')) = [InputReset; OutCycle; OutFinalize]
    /\ last (trace (world s')) = Some ConfigCancel.
Proof. vm_compute. eexists. split; [reflexivity|]. by repeat split. Qed.

(** ** binary64: the comparisons of CheckStop

    The quotient of two ints below [2^53] is the correctly rounded quotient
    of two exact conversions; it compares with [0.95] and [0.2] as the
    rational quotient does, as long as the divisor is below [2^52]. *)
























(** The constants are the quotients that the Go compiler rounds. *)
Lemma f0_95_is_95_100 :
  f0_95 = float64_div (float64_of_int 95) (float64_of_int 100).
Proof. reflexivity. Qed.

Lemma f0_2_is_2_10 :
  f0_2 = float64_div (float64_of_int 2) (float64_of_int 10).
Proof. reflexivity. Qed.

(** ** Adaptive stops *)



(** ** The theorems on the fixtures *)

(** C6 at a response of status 200, one matcher for 200 and one filter for
    404: accepted. *)
Lemma isMatch_matchers_any_filters_none_witness :
  fst (isMatch Fixtures.resp_a
         (Fixtures.state
            (Fixtures.conf [Fixtures.status_is 200] [Fixtures.status_is 404])))
  = true.
Proof.
  apply (proj2 (proj1 (isMatch_matchers_any_filters_none Fixtures.resp_a
                         (Fixtures.state
                            (Fixtures.conf [Fixtures.status_is 200]
                               [Fixtures.status_is 404]))))).
  split.
  - exists (Fixtures.status_is 200). split; [apply list_elem_of_here|reflexivity].
  - intros f Hf. apply list_elem_of_singleton in Hf. subst f. discriminate.
Defined.

(** C8 at depth 1 under the bound 2: the greedy handler appends a target of
    depth 2. *)
Lemma recursion_handlers_respect_depth_witness :
  let s := mkState (set_currentDepth 1
                      (NewJob (Fixtures.conf_recursion "greedy" 2)))
             newWorld in
  Forall (fun q => QueueJob.depth q <= 2)
    (queuejobs (job (snd (handleGreedyRecursionJob Fixtures.resp_dir s)))).
Proof.
  intros s.
  apply (proj2 (recursion_handlers_respect_depth Fixtures.resp_dir s
                  handleGreedyRecursionJob (or_introl eq_refl)
                  ltac:(vm_compute; split; discriminate)
                  ltac:(vm_compute; split; discriminate))).
  - simpl. lia.
  - simpl. constructor.
Defined.

(** C7 on the redirect of "http://h/admin" to "http://h/admin/": one target
    "http://h/admin/FUZZ" of depth 1 is queued. *)
Lemma default_recursion_on_directory_redirect_witness :
  let e := Fixtures.env (Fixtures.runner Fixtures.never) None
             [Fixtures.word "admin"] in
  let s := Fixtures.state (Fixtures.conf_recursion "default" 1) in
  queuejobs (job (snd (processResponse e (Fixtures.word "admin") 0
                         Fixtures.resp_dir s)))
  = [QueueJob.mk "http://h/admin/FUZZ" 1].
Proof.
  intros e s.
  rewrite (proj1 (proj2 (proj2 (proj2 (proj2
             (default_recursion_on_directory_redirect e
                (Fixtures.word "admin") 0 Fixtures.resp_dir s
                eq_refl eq_refl)))))).
  - reflexivity.
  - split; [discriminate|]. split; [reflexivity|]. right. simpl. lia.
Defined.




(** ** The scenarios of the specification, run on the model *)

(** Linear fuzz: three inputs dispatched, one result, no error, the queue
    keeps its single target. *)
Example scenario_linear_fuzz :
  exists s',
    Start Fixtures.env_b 4
      (Fixtures.state (Fixtures.conf [Fixtures.status_is 200] [])) = Ok s'
    /\ Counter (job s') = 3
    /\ ErrorCounter (job s') = 0
    /\ length (queuejobs (job s')) = 1%nat
    /\ results (trace (world s')) = ["http://h/b"%string].
Proof. vm_compute. eexists. split; [reflexivity|]. by repeat split. Qed.

(** Default recursion on a directory, bound 1: one target of depth 1 is
    queued, and nothing when it is fuzzed in its turn. *)
Example scenario_default_recursion :
  exists s',
    Start Fixtures.env_dirs 3
      (Fixtures.state (Fixtures.conf_recursion "default" 1)) = Ok s'
    /\ queuejobs (job s')
       = [QueueJob.mk "http://h/FUZZ" 0; QueueJob.mk "http://h/admin/FUZZ" 1]
    /\ length (warnings (trace (world s'))) = 1%nat.
Proof. vm_compute. eexists. split; [reflexivity|]. by repeat split. Qed.

(** Greedy recursion, bound 2: the matches at depth 0 and 1 queue a target,
    the match at depth 2 is answered by a warning. *)
Example scenario_greedy_depth_limit :
  exists s',
    Start Fixtures.env_dirs 4
      (Fixtures.state (Fixtures.conf_recursion "greedy" 2)) = Ok s'
    /\ map QueueJob.depth (queuejobs (job s')) = [0; 1; 2]
    /\ warnings (trace (world s'))
       = ["Maximum recursion depth reached. Ignoring: http://h/admin/admin/admin"%string].
Proof. vm_compute. eexists. split; [reflexivity|]. by repeat split. Qed.

(** Adaptive stop on 49 responses 403 among 51 inputs. *)
Example scenario_403_stop :
  let s' := snd (CheckStop Fixtures.env_b Fixtures.state_403) in
  Running (job s') = false /\ Error (job s') = msg403
  /\ trace (world s') = [ConfigCancel].
Proof. vm_compute. by repeat split. Qed.

(** Spurious errors: every input fails twice; the check that precedes the
    52nd input stops the run. *)
Example scenario_spurious_errors :
  exists s',
    Start Fixtures.env_failing 61 (Fixtures.state Fixtures.conf_stopOnErrors)
    = Ok s'
    /\ Counter (job s') = 51
    /\ SpuriousErrorCounter (job s') = 51
    /\ Error (job s') = msgErrors
    /\ warnings (trace (world s')) = [msgErrors].
Proof. vm_compute. eexists. split; [reflexivity|]. by repeat split. Qed.

(** ** The retry policy, run on the model *)

(** A failure of [Prepare]: one call of the runner, one error. *)
Example prepare_failure_is_not_retried :
  let e := Fixtures.env Fixtures.runner_unprepared None [Fixtures.word "a"] in
  let s := Fixtures.state (Fixtures.conf [Fixtures.match_all] []) in
  let s' := snd (runTask e (Fixtures.word "a") 0 false s) in
  runnerCalls (world s') = 1%nat /\ ErrorCounter (job s') = 1
  /\ SpuriousErrorCounter (job s') = 1.
Proof. vm_compute. by repeat split. Qed.

(** Two failures of [Execute]: four calls of the runner, one error. *)
Example two_execute_failures_count_once :
  let e := Fixtures.env (Fixtures.runner Fixtures.always) None
             [Fixtures.word "a"] in
  let s := Fixtures.state (Fixtures.conf [Fixtures.match_all] []) in
  let s' := snd (runTask e (Fixtures.word "a") 0 false s) in
  runnerCalls (world s') = 4%nat /\ ErrorCounter (job s') = 1
  /\ SpuriousErrorCounter (job s') = 1.
Proof. vm_compute. by repeat split. Qed.

(** A retry that succeeds, on a response that matches, with a replay proxy
    whose [Prepare] fails: the result is emitted and the replay error is
    counted. *)
Example replay_failure_is_counted :
  let e := Fixtures.env (Fixtures.runner Fixtures.first_execute)
             (Some Fixtures.runner_unprepared) [Fixtures.word "a"] in
  let s := Fixtures.state (Fixtures.conf [Fixtures.match_all] []) in
  let s' := snd (runTask e (Fixtures.word "a") 0 false s) in
  runnerCalls (world s') = 4%nat /\ replayCalls (world s') = 1%nat
  /\ ErrorCounter (job s') = 1
  /\ results (trace (world s')) = ["http://h/a"%string].
Proof. vm_compute. by repeat split. Qed.

(** * Further properties

    What the code shows beyond the properties above: the bounds of the queue
    operations, the accounting of the worker, the exits of the dispatcher,
    invariants of a whole run, the calibrator, the pause barrier and the
    writer of the output file. *)

(** Reads the fields of the job through their updates. *)
Ltac run_job :=
  cbn [job world Config Counter ErrorCounter SpuriousErrorCounter Total
       Running RunningJob Paused Count403 Count429 Error startTime
       startTimeJob queuejobs queuepos skipQueue currentDepth
       set_Config set_Counter set_ErrorCounter set_SpuriousErrorCounter
       set_Total set_Running set_RunningJob set_Paused set_Count403
       set_Count429 set_Error set_startTime set_startTimeJob set_queuejobs
       set_queuepos set_skipQueue set_currentDepth].

Tactic Notation "run_job" "in" hyp(H) :=
  cbn [job world Config Counter ErrorCounter SpuriousErrorCounter Total
       Running RunningJob Paused Count403 Count429 Error startTime
       startTimeJob queuejobs queuepos skipQueue currentDepth
       set_Config set_Counter set_ErrorCounter set_SpuriousErrorCounter
       set_Total set_Running set_RunningJob set_Paused set_Count403
       set_Count429 set_Error set_startTime set_startTimeJob set_queuejobs
       set_queuepos set_skipQueue set_currentDepth] in H.

(** Runs a computation along the tests that it applies to a state. *)
Ltac run_branches :=
  repeat (run_monad; run_job;
          match goal with
          | |- context [(if ?b then _ else _) _] => destruct b eqn:?
          end).

(** ** The queue: bounds and cursor *)

Lemma index_lookup {A} (s : list A) (i : Z) :
  0 <= i -> index s i = s !! Z.to_nat i.
Proof.
  intros Hi. unfold index. destruct (i <? 0) eqn:E; [lia|done].
Qed.

Lemma index_None {A} (s : list A) (i : Z) :
  index s i = None <-> i < 0 \/ len s <= i.
Proof.
  unfold index, len. destruct (i <? 0) eqn:E.
  - split; [intros _; left; lia|done].
  - rewrite lookup_ge_None. lia.
Qed.

(** X1: [QueuedJobs] returns the queue from the current target on when the
    cursor is between 1 and one past the length of the queue, and while a
    target is current the first entry of the result is that target; it
    panics when the cursor is below 1, as on every job before [Start], or
    more than one past the end. *)
Theorem QueuedJobs_needs_started_job (j : Job) :
  in_int (queuepos j - 1) ->
  (1 <= queuepos j <= len (queuejobs j) + 1 ->
   QueuedJobs j = Some (drop (Z.to_nat (queuepos j - 1)) (queuejobs j))
   /\ (queuepos j <= len (queuejobs j) ->
       head (drop (Z.to_nat (queuepos j - 1)) (queuejobs j))
       = index (queuejobs j) (queuepos j - 1)
       /\ is_Some (index (queuejobs j) (queuepos j - 1))))
  /\ (queuepos j < 1 \/ len (queuejobs j) + 1 < queuepos j ->
      QueuedJobs j = None).
Proof.
  intros Hint. unfold QueuedJobs, slice_from, int_sub.
  rewrite wrap_id by done. split.
  - intros H. destruct (0 <=? queuepos j - 1) eqn:E1; [|lia].
    destruct (queuepos j - 1 <=? len (queuejobs j)) eqn:E2; [|lia].
    split; [done|]. intros Hle. rewrite index_lookup by lia. split.
    + by rewrite head_lookup, lookup_drop, Nat.add_0_r.
    + apply lookup_lt_is_Some. unfold len in *. lia.
  - intros H. destruct (0 <=? queuepos j - 1) eqn:E1;
      destruct (queuepos j - 1 <=? len (queuejobs j)) eqn:E2; try done. lia.
Qed.

Lemma QueuedJobs_needs_started_job_witness :
  QueuedJobs (NewJob (Fixtures.conf [] [])) = None.
Proof.
  apply (proj2 (QueuedJobs_needs_started_job (NewJob (Fixtures.conf [] []))
                  ltac:(vm_compute; split; discriminate))).
  left. simpl. lia.
Defined.

(** X2: under the guard [jobsInQueue] of the loop of [Start],
    [prepareQueueJob] does not panic: it takes the entry at the cursor, sets
    [Config.Url] and [currentDepth] from it and advances the cursor by one,
    so that this entry is the first one of [QueuedJobs()]; the queue keeps
    its entries.  Without the guard it panics. *)
Theorem prepareQueueJob_takes_next_target (j : Job) :
  0 <= queuepos j ->
  len (queuejobs j) <= int_max ->
  (jobsInQueue j = false -> prepareQueueJob j = None)
  /\ (jobsInQueue j = true ->
      exists q j',
        index (queuejobs j) (queuepos j) = Some q
        /\ prepareQueueJob j = Some j'
        /\ Config.Url (Config j') = QueueJob.Url q
        /\ currentDepth j' = QueueJob.depth q
        /\ queuepos j' = queuepos j + 1
        /\ queuejobs j' = queuejobs j
        /\ QueuedJobs j'
           = Some (q :: drop (S (Z.to_nat (queuepos j))) (queuejobs j))).
Proof.
  intros Hpos Hlen. unfold jobsInQueue, prepareQueueJob. split.
  - intros H. apply Z.ltb_ge in H.
    assert (index (queuejobs j) (queuepos j) = None) as ->; [|done].
    apply index_None. lia.
  - intros H. apply Z.ltb_lt in H.
    destruct (index (queuejobs j) (queuepos j)) as [q|] eqn:E.
    2:{ apply index_None in E. lia. }
    exists q. eexists. split; [done|]. split; [done|]. cbn.
    assert (Hw : int_add (queuepos j) 1 = queuepos j + 1).
    { unfold int_add. apply wrap_id.
      unfold in_int, int_min, int_max in *. lia. }
    rewrite Hw. repeat split.
    unfold QueuedJobs, slice_from, int_sub. cbn.
    rewrite wrap_id by (unfold in_int, int_min, int_max in *; lia).
    destruct (0 <=? queuepos j + 1 - 1) eqn:E1; [|lia].
    destruct (queuepos j + 1 - 1 <=? len (queuejobs j)) eqn:E2; [|lia].
    cbn. f_equal. rewrite index_lookup in E by done.
    replace (Z.to_nat (queuepos j + 1 - 1)) with (Z.to_nat (queuepos j)) by lia.
    by rewrite (drop_S _ _ _ E).
Qed.

Lemma prepareQueueJob_takes_next_target_witness :
  exists j',
    prepareQueueJob Fixtures.job_abc = Some j'
    /\ Config.Url (Config j') = "http://h/b/FUZZ"%string
    /\ currentDepth j' = 1
    /\ QueuedJobs j' = Some [Fixtures.qb; Fixtures.qc].
Proof.
  destruct (prepareQueueJob_takes_next_target Fixtures.job_abc
              ltac:(vm_compute; discriminate) ltac:(vm_compute; discriminate))
    as [_ H].
  destruct (H eq_refl) as (q & j' & Hq & Hj & Hu & Hd & _ & _ & Hv).
  injection Hq as <-. exists j'. by repeat split.
Defined.

(** X3: [DeleteQueueItem] panics exactly when [queuepos + index - 1] is no
    index of the queue; when it returns, the queue is one entry shorter and
    the cursor is where it was. *)
Theorem DeleteQueueItem_panics_out_of_range (j : Job) (i : Z) :
  in_int (queuepos j + i) ->
  in_int (queuepos j + i - 1) ->
  len (queuejobs j) <= int_max ->
  (DeleteQueueItem i j = None
   <-> queuepos j + i - 1 < 0 \/ len (queuejobs j) <= queuepos j + i - 1)
  /\ (forall j', DeleteQueueItem i j = Some j' ->
      len (queuejobs j') = len (queuejobs j) - 1
      /\ queuepos j' = queuepos j).
Proof.
  intros H1 H2 Hlen.
  destruct (Z.lt_ge_cases (queuepos j + i - 1) 0) as [Hneg|Hpos].
  { assert (Hn : DeleteQueueItem i j = None).
    { unfold DeleteQueueItem, int_add, int_sub.
      rewrite (wrap_id (queuepos j + i)) by done.
      rewrite (wrap_id (queuepos j + i - 1)) by done.
      destruct (0 <=? queuepos j + i - 1) eqn:E; [lia|done]. }
    rewrite Hn. split; [split; [by left|done]|done]. }
  destruct (Z.lt_ge_cases (queuepos j + i - 1) (len (queuejobs j)))
    as [Hin|Hout].
  - rewrite DeleteQueueItem_delete by (done || lia). split.
    + split; [done|lia].
    + intros j' [= <-]. cbn. split; [|done].
      unfold len. rewrite length_delete.
      * unfold len in Hin. lia.
      * apply lookup_lt_is_Some. unfold len in Hin. lia.
  - assert (Hn : DeleteQueueItem i j = None).
    { unfold DeleteQueueItem, int_add, int_sub.
      rewrite (wrap_id (queuepos j + i)) by done.
      rewrite (wrap_id (queuepos j + i - 1)) by done.
      destruct (0 <=? queuepos j + i - 1) eqn:E; [|done]. cbn [andb].
      destruct (Z.eq_dec (queuepos j + i - 1) int_max) as [Heq|Hne].
      - rewrite Heq. by vm_compute.
      - rewrite wrap_id by (unfold in_int, int_min, int_max in *; lia).
        destruct (0 <=? queuepos j + i - 1 + 1) eqn:E3; [|done].
        destruct (queuepos j + i - 1 + 1 <=? len (queuejobs j)) eqn:E2;
          [lia|done]. }
    rewrite Hn. split; [split; [by right|done]|done].
Qed.

Lemma DeleteQueueItem_panics_out_of_range_witness :
  DeleteQueueItem 3 Fixtures.job_abc = None.
Proof.
  apply (proj1 (DeleteQueueItem_panics_out_of_range Fixtures.job_abc 3
                  ltac:(vm_compute; split; discriminate)
                  ltac:(vm_compute; split; discriminate)
                  ltac:(vm_compute; discriminate))).
  right. vm_compute. discriminate.
Defined.

(** X4: [DeleteQueueItem 0] removes the current target and leaves the
    cursor where it is, so the first pending target takes the place of the
    current one and is never started: the target that [prepareQueueJob]
    takes next is the second pending one, and there is none to take if only
    one was pending. *)
Theorem DeleteQueueItem_current_skips_next_target (j : Job) :
  1 <= queuepos j <= len (queuejobs j) ->
  len (queuejobs j) <= int_max ->
  exists j',
    DeleteQueueItem 0 j = Some j'
    /\ queuepos j' = queuepos j
    /\ index (queuejobs j') (queuepos j - 1) = index (queuejobs j) (queuepos j)
    /\ index (queuejobs j') (queuepos j) = index (queuejobs j) (queuepos j + 1)
    /\ (prepareQueueJob j' = None <-> len (queuejobs j) <= queuepos j + 1)
    /\ (forall j'', prepareQueueJob j' = Some j'' ->
        exists q, index (queuejobs j) (queuepos j + 1) = Some q
                  /\ Config.Url (Config j'') = QueueJob.Url q
                  /\ currentDepth j'' = QueueJob.depth q).
Proof.
  intros Hpos Hlen.
  rewrite DeleteQueueItem_delete
    by (unfold in_int, int_min, int_max in *; lia).
  eexists. split; [done|]. cbn.
  replace (queuepos j + 0 - 1) with (queuepos j - 1) by lia.
  set (k := Z.to_nat (queuepos j - 1)).
  assert (H1 : index (delete k (queuejobs j)) (queuepos j - 1)
               = index (queuejobs j) (queuepos j)).
  { rewrite !index_lookup by lia.
    rewrite list_lookup_delete_ge by (subst k; lia).
    f_equal. lia. }
  assert (H2 : index (delete k (queuejobs j)) (queuepos j)
               = index (queuejobs j) (queuepos j + 1)).
  { rewrite !index_lookup by lia.
    rewrite list_lookup_delete_ge by (subst k; lia).
    f_equal. lia. }
  split; [done|]. split; [done|]. split; [done|].
  unfold prepareQueueJob. cbn. rewrite H2. split.
  - destruct (index (queuejobs j) (queuepos j + 1)) eqn:E.
    + split; [done|]. intros Hl.
      assert (index (queuejobs j) (queuepos j + 1) = None); [|congruence].
      apply index_None. lia.
    + split; [|done]. intros _. apply index_None in E. lia.
  - intros j''. destruct (index (queuejobs j) (queuepos j + 1)) as [q|];
      [|done].
    intros [= <-]. by exists q.
Qed.

Lemma DeleteQueueItem_current_skips_next_target_witness :
  exists j',
    DeleteQueueItem 0 Fixtures.job_abc = Some j'
    /\ forall j'', prepareQueueJob j' = Some j'' ->
         Config.Url (Config j'') = "http://h/c/FUZZ"%string.
Proof.
  destruct (DeleteQueueItem_current_skips_next_target Fixtures.job_abc
              ltac:(vm_compute; split; discriminate)
              ltac:(vm_compute; discriminate))
    as (j' & Hd & _ & _ & _ & _ & Hnext).
  exists j'. split; [exact Hd|]. intros j'' Hp.
  destruct (Hnext j'' Hp) as (q & Hq & Hu & _).
  injection Hq as <-. exact Hu.
Defined.

(** ** The worker: counters and queue *)

Section Worker.

Variable env : Env.
Variables (input : InputMap) (position : Z).

(** The job after a task: [runTask] ends with one [incError], or with what
    it does with a response. *)
Lemma runTask_job_cases retried s :
  job (snd (runTask env input position retried s)) = job (snd (incError s))
  \/ exists resp w,
       replayCalls w = replayCalls (world s)
       /\ job (snd (runTask env input position retried s))
          = job (snd (processResponse env input position resp
                        (mkState (job s) w))).
Proof.
  assert (Hretried : forall s0,
    job (snd (runTask env input position true s0)) = job (snd (incError s0))
    \/ exists resp w,
         replayCalls w = replayCalls (world s0)
         /\ job (snd (runTask env input position true s0))
            = job (snd (processResponse env input position resp
                          (mkState (job s0) w)))).
  { intros s0. rewrite !runTask_equation. unfold runTask_body.
    unfold Runner_Prepare, Runner_Execute. run_monad.
    destruct (snd (RunnerProvider.Prepare _ _ _ _)).
    { left. by unfold incError; run_monad. }
    run_monad. destruct (snd (RunnerProvider.Execute _ _ _)).
    { left. by unfold incError; run_monad. }
    right. eexists _, _. split; [|reflexivity]. reflexivity. }
  destruct retried; [apply Hretried|].
  rewrite !runTask_equation. unfold runTask_body.
  unfold Runner_Prepare, Runner_Execute. run_monad.
  destruct (snd (RunnerProvider.Prepare _ _ _ _)).
  { left. by unfold incError; run_monad. }
  run_monad. destruct (snd (RunnerProvider.Execute _ _ _)).
  - match goal with
    | |- context [runTask env input position true ?st] =>
        destruct (Hretried st) as [H|(resp & w & Hw & H)]
    end.
    + left. rewrite H. by unfold incError; run_monad.
    + right. exists resp, w. split; [done|]. by rewrite H.
  - right. eexists _, _. split; [|reflexivity]. reflexivity.
Qed.

Lemma incError_counters s :
  ErrorCounter (job (snd (incError s))) = int_add (ErrorCounter (job s)) 1
  /\ SpuriousErrorCounter (job (snd (incError s)))
     = int_add (SpuriousErrorCounter (job s)) 1.
Proof. by unfold incError; run_monad. Qed.

Lemma replay_SpuriousErrorCounter s :
  SpuriousErrorCounter (job (snd (replay env input position s)))
  = if replay_prepare_fails env (Config (job s)) input (replayCalls (world s))
    then int_add (SpuriousErrorCounter (job s)) 1
    else SpuriousErrorCounter (job s).
Proof.
  unfold replay, replay_prepare_fails.
  destruct (ReplayRunner env) as [rr|]; [|done].
  unfold Replay_Prepare. run_monad.
  by destruct (snd (RunnerProvider.Prepare rr _ _ input)).
Qed.

Lemma handleGreedyRecursionJob_SpuriousErrorCounter resp :
  preserves SpuriousErrorCounter (handleGreedyRecursionJob resp).
Proof. unfold_worker. frame. Qed.

Lemma defaultRecursion_SpuriousErrorCounter resp :
  preserves SpuriousErrorCounter (defaultRecursion resp).
Proof. unfold defaultRecursion. unfold_worker. frame. Qed.

Lemma emitMatch_SpuriousErrorCounter resp s :
  SpuriousErrorCounter (job (snd (emitMatch env input position resp s)))
  = if replay_prepare_fails env (Config (job s)) input (replayCalls (world s))
    then int_add (SpuriousErrorCounter (job s)) 1
    else SpuriousErrorCounter (job s).
Proof.
  unfold emitMatch. rewrite !bind_snd.
  unfold get_job. cbn [fst snd].
  rewrite preserves_when by apply handleGreedyRecursionJob_SpuriousErrorCounter.
  rewrite (updateProgress_job _). cbn [emit modify_world fst snd job].
  apply replay_SpuriousErrorCounter.
Qed.

Lemma countStatus_SpuriousErrorCounter resp s :
  SpuriousErrorCounter (job (snd (countStatus resp s)))
  = if SpuriousErrorCounter (job s) >? 0 then 0
    else SpuriousErrorCounter (job s).
Proof.
  unfold countStatus. rewrite !bind_snd. unfold get_job. cbn [fst snd].
  assert (H1 : forall b m, preserves SpuriousErrorCounter m ->
            preserves SpuriousErrorCounter (when b m)).
  { intros. by apply preserves_when. }
  rewrite !H1 by (unfold_worker; frame).
  unfold resetSpuriousErrors. by destruct (_ >? 0).
Qed.

(** After a response the streak of errors is over; a replay that cannot be
    prepared starts the next one. *)
Lemma processResponse_SpuriousErrorCounter resp s :
  SpuriousErrorCounter (job (snd (processResponse env input position resp s)))
  = let sp := if SpuriousErrorCounter (job s) >? 0 then 0
              else SpuriousErrorCounter (job s) in
    if fst (isMatch resp s)
       && replay_prepare_fails env (Config (job s)) input (replayCalls (world s))
    then int_add sp 1 else sp.
Proof.
  unfold processResponse. rewrite !bind_snd.
  rewrite defaultRecursion_SpuriousErrorCounter.
  cbn [emit modify_world snd job].
  assert (Hm : fst (isMatch resp (snd (countStatus resp s)))
               = fst (isMatch resp s)).
  { by rewrite !isMatch_value, countStatus_Config. }
  rewrite Hm. destruct (fst (isMatch resp s)); cbn [when ret snd andb].
  - rewrite emitMatch_SpuriousErrorCounter, isMatch_replayCalls, isMatch_job.
    by rewrite countStatus_world, !countStatus_SpuriousErrorCounter,
      countStatus_Config.
  - by rewrite isMatch_job, countStatus_SpuriousErrorCounter.
Qed.

(** X5: a task counts at most one error, whatever its retry and its replay
    do: [ErrorCounter] stays or rises by one.  [SpuriousErrorCounter] stays
    between 0 and [ErrorCounter], rises by at most one, and is positive
    when an error was counted. *)
Theorem runTask_counts_at_most_one_error (retried : bool) (s : State) :
  let j := job s in
  let j' := job (snd (runTask env input position retried s)) in
  0 <= SpuriousErrorCounter j <= ErrorCounter j ->
  ErrorCounter j < int_max ->
  (ErrorCounter j' = ErrorCounter j \/ ErrorCounter j' = ErrorCounter j + 1)
  /\ 0 <= SpuriousErrorCounter j' <= ErrorCounter j'
  /\ SpuriousErrorCounter j' <= SpuriousErrorCounter j + 1
  /\ (ErrorCounter j' = ErrorCounter j + 1 -> 1 <= SpuriousErrorCounter j').
Proof.
  intros j j' Hsp Hec.
  assert (Hw : forall z, 0 <= z <= ErrorCounter j -> int_add z 1 = z + 1).
  { intros z Hz. unfold int_add. apply wrap_id.
    unfold in_int, int_min, int_max in *. lia. }
  destruct (runTask_job_cases retried s) as [H|(resp & w & Hw' & H)];
    subst j'; rewrite H.
  - destruct (incError_counters s) as [-> ->]. fold j.
    rewrite !Hw by lia. lia.
  - rewrite processResponse_ErrorCounter,
      processResponse_SpuriousErrorCounter.
    cbn [job world]. fold j. cbv zeta.
    destruct (_ && _); destruct (SpuriousErrorCounter j >? 0) eqn:E;
      rewrite ?Hw by lia; lia.
Qed.

Lemma runTask_execute_ok_retry s :
  prepare_error env (Config (job s)) input (runnerCalls (world s)) = None ->
  snd (execute_at env (Config (job s)) input position (runnerCalls (world s)))
  = None ->
  forall retried,
    job (snd (runTask env input position retried s))
    = job (snd (processResponse env input position
                  (fst (execute_at env (Config (job s)) input position
                          (runnerCalls (world s))))
                  (after_calls 2 s))).
Proof. intros Hp He retried. by rewrite runTask_execute_ok. Qed.

(** X6: a task whose [Prepare] and [Execute] succeed ends the run of
    consecutive errors: [SpuriousErrorCounter] is 0 after it and
    [ErrorCounter] is as before; unless the response matched and the replay
    request could not be prepared, which is counted and is the first error
    of a new run. *)
Theorem response_ends_error_streak (retried : bool) (s : State) :
  let j := job s in
  let n := runnerCalls (world s) in
  let j' := job (snd (runTask env input position retried s)) in
  prepare_error env (Config j) input n = None ->
  snd (execute_at env (Config j) input position n) = None ->
  0 <= SpuriousErrorCounter j ->
  let resp := fst (execute_at env (Config j) input position n) in
  let replay_failed :=
    fst (isMatch resp s)
    && replay_prepare_fails env (Config j) input (replayCalls (world s)) in
  (replay_failed = false ->
   SpuriousErrorCounter j' = 0 /\ ErrorCounter j' = ErrorCounter j)
  /\ (replay_failed = true ->
      SpuriousErrorCounter j' = 1
      /\ ErrorCounter j' = int_add (ErrorCounter j) 1).
Proof.
  intros j n j' Hp He Hsp resp replay_failed.
  subst j'. rewrite runTask_execute_ok_retry by done.
  rewrite processResponse_ErrorCounter, processResponse_SpuriousErrorCounter.
  assert (Hm : fst (isMatch (fst (execute_at env (Config (job s)) input
                                    position (runnerCalls (world s))))
                      (after_calls 2 s))
               = fst (isMatch resp s)) by (by rewrite !isMatch_value).
  rewrite Hm. cbn [after_calls job world replayCalls set_runnerCalls].
  fold j. fold replay_failed. cbv zeta.
  split; intros ->; (split; [|done]);
    destruct (SpuriousErrorCounter j >? 0) eqn:E; try done;
    rewrite Z.gtb_ltb in E; apply Z.ltb_ge in E;
    by replace (SpuriousErrorCounter j) with 0 by lia.
Qed.

Lemma countStatus_Count403 resp s :
  Count403 (job (snd (countStatus resp s)))
  = if (Config.StopOn403 (Config (job s)) || Config.StopOnAll (Config (job s)))
       && (Response.StatusCode resp =? 403)
    then int_add (Count403 (job s)) 1 else Count403 (job s).
Proof.
  unfold countStatus, resetSpuriousErrors, inc403, inc429.
  run_branches; run_monad; run_job; cbn [andb orb]; try reflexivity.
  all: by destruct (Config.StopOn403 _), (Config.StopOnAll _).
Qed.

Lemma countStatus_Count429 resp s :
  Count429 (job (snd (countStatus resp s)))
  = if Config.StopOnAll (Config (job s)) && (Response.StatusCode resp =? 429)
    then int_add (Count429 (job s)) 1 else Count429 (job s).
Proof.
  unfold countStatus, resetSpuriousErrors, inc403, inc429.
  run_branches; run_monad; run_job; cbn [andb orb]; try reflexivity.
  all: by destruct (Config.StopOn403 _), (Config.StopOnAll _).
Qed.

Lemma after_countStatus_Count403 resp :
  preserves Count403
    ((let* matched := isMatch resp in
      when matched (emitMatch env input position resp)) ;;;
     emit (MakeFreeMemory resp) ;;;
     defaultRecursion resp).
Proof. unfold defaultRecursion, isMatch. unfold_worker. frame. Qed.

Lemma after_countStatus_Count429 resp :
  preserves Count429
    ((let* matched := isMatch resp in
      when matched (emitMatch env input position resp)) ;;;
     emit (MakeFreeMemory resp) ;;;
     defaultRecursion resp).
Proof. unfold defaultRecursion, isMatch. unfold_worker. frame. Qed.

Lemma processResponse_Count403 resp s :
  Count403 (job (snd (processResponse env input position resp s)))
  = if (Config.StopOn403 (Config (job s)) || Config.StopOnAll (Config (job s)))
       && (Response.StatusCode resp =? 403)
    then int_add (Count403 (job s)) 1 else Count403 (job s).
Proof.
  unfold processResponse. rewrite bind_snd.
  rewrite (after_countStatus_Count403 _ _). apply countStatus_Count403.
Qed.

Lemma processResponse_Count429 resp s :
  Count429 (job (snd (processResponse env input position resp s)))
  = if Config.StopOnAll (Config (job s)) && (Response.StatusCode resp =? 429)
    then int_add (Count429 (job s)) 1 else Count429 (job s).
Proof.
  unfold processResponse. rewrite bind_snd.
  rewrite (after_countStatus_Count429 _ _). apply countStatus_Count429.
Qed.

(** X7: the counters of the 403 and 429 responses are kept on demand.
    Without [StopOn403] and [StopOnAll] a task never changes [Count403],
    without [StopOnAll] it never changes [Count429], whatever the responses
    are.  A task whose [Prepare] and [Execute] succeed adds one to
    [Count403] iff one of the two flags is set and the status is 403, and
    one to [Count429] iff [StopOnAll] is set and the status is 429. *)
Theorem runTask_counts_status_on_demand (retried : bool) (s : State) :
  let j := job s in
  let c := Config j in
  let n := runnerCalls (world s) in
  let j' := job (snd (runTask env input position retried s)) in
  (Config.StopOn403 c = false -> Config.StopOnAll c = false ->
   Count403 j' = Count403 j)
  /\ (Config.StopOnAll c = false -> Count429 j' = Count429 j)
  /\ (prepare_error env c input n = None ->
      snd (execute_at env c input position n) = None ->
      let resp := fst (execute_at env c input position n) in
      Count403 j'
      = (if (Config.StopOn403 c || Config.StopOnAll c)
            && (Response.StatusCode resp =? 403)
         then int_add (Count403 j) 1 else Count403 j)
      /\ Count429 j'
         = (if Config.StopOnAll c && (Response.StatusCode resp =? 429)
            then int_add (Count429 j) 1 else Count429 j)).
Proof.
  intros j c n j'. split; [|split].
  - intros H1 H2. subst j'.
    destruct (runTask_job_cases retried s) as [H|(resp & w & _ & H)];
      rewrite H.
    + by unfold incError; run_monad.
    + rewrite processResponse_Count403. cbn [job]. fold j c.
      by rewrite H1, H2.
  - intros H2. subst j'.
    destruct (runTask_job_cases retried s) as [H|(resp & w & _ & H)];
      rewrite H.
    + by unfold incError; run_monad.
    + rewrite processResponse_Count429. cbn [job]. fold j c.
      by rewrite H2.
  - intros Hp He resp. subst j'.
    rewrite runTask_execute_ok_retry by done.
    by rewrite processResponse_Count403, processResponse_Count429.
Qed.

Lemma replay_currentDepth :
  preserves currentDepth (replay env input position).
Proof. unfold_worker. frame. Qed.

(** What a match adds to the queue. *)
Lemma emitMatch_queuejobs resp s :
  queuejobs (job (snd (emitMatch env input position resp s)))
  = if Config.Recursion (Config (job s))
       && String.eqb (Config.RecursionStrategy (Config (job s))) "greedy"
       && ((Config.RecursionDepth (Config (job s)) =? 0)
           || (currentDepth (job s) <? Config.RecursionDepth (Config (job s))))
    then queuejobs (job s) ++ [recursion_target (job s) resp]
    else queuejobs (job s).
Proof.
  unfold emitMatch. rewrite !bind_snd.
  unfold get_job at 1 2. cbn [fst snd].
  rewrite (updateProgress_job _). cbn [emit modify_world fst snd job].
  rewrite replay_Config.
  destruct (Config.Recursion (Config (job s))
            && String.eqb (Config.RecursionStrategy (Config (job s))) "greedy")
    eqn:E; cbn [when ret snd andb].
  - rewrite handleGreedyRecursionJob_queue. unfold recursion_target.
    unfold get_job. cbn [snd].
    rewrite (updateProgress_job _). cbn [job].
    rewrite replay_Config, replay_queuejobs.
    by rewrite !(replay_currentDepth s), ?(replay_queuejobs _ _ _ s).
  - unfold get_job. cbn [snd].
    rewrite (updateProgress_job _). cbn [job]. apply replay_queuejobs.
Qed.

Lemma before_defaultRecursion_queuejobs_any resp s :
  queuejobs (job (before_defaultRecursion env input position resp s))
  = if fst (isMatch resp s)
       && Config.Recursion (Config (job s))
       && String.eqb (Config.RecursionStrategy (Config (job s))) "greedy"
       && ((Config.RecursionDepth (Config (job s)) =? 0)
           || (currentDepth (job s) <? Config.RecursionDepth (Config (job s))))
    then queuejobs (job s) ++ [recursion_target (job s) resp]
    else queuejobs (job s).
Proof.
  unfold before_defaultRecursion. cbn [emit modify_world snd job].
  assert (Hm : fst (isMatch resp (snd (countStatus resp s)))
               = fst (isMatch resp s)).
  { by rewrite !isMatch_value, countStatus_Config. }
  rewrite Hm. destruct (fst (isMatch resp s)); cbn [when ret snd andb].
  - rewrite emitMatch_queuejobs, !isMatch_job. unfold recursion_target.
    by rewrite !countStatus_Config, !countStatus_currentDepth,
      !countStatus_queuejobs.
  - by rewrite isMatch_job, countStatus_queuejobs.
Qed.

Lemma greedy_is_not_default (x : string) :
  String.eqb x "greedy" = true -> String.eqb x "default" = false.
Proof. intros ->%String.eqb_eq. reflexivity. Qed.

(** The queue after a response: the queue before it, or one more target. *)
Lemma processResponse_queuejobs resp s :
  let j := job s in
  let c := Config j in
  let greedy :=
    fst (isMatch resp s)
    && String.eqb (Config.RecursionStrategy c) "greedy" in
  let default :=
    String.eqb (Config.RecursionStrategy c) "default"
    && (Z.of_nat (String.length (Response.GetRedirectLocation resp false)) >? 0)
    && String.eqb (Request.Url (Response.Request resp) +:+ "/")
         (Response.GetRedirectLocation resp true) in
  queuejobs (job (snd (processResponse env input position resp s)))
  = if Config.Recursion c && (greedy || default)
       && ((Config.RecursionDepth c =? 0)
           || (currentDepth j <? Config.RecursionDepth c))
    then queuejobs j ++ [recursion_target j resp]
    else queuejobs j.
Proof.
  intros j c greedy default.
  rewrite processResponse_snd.
  unfold defaultRecursion. rewrite bind_snd. unfold get_job.
  cbn [fst snd]. rewrite before_defaultRecursion_Config. fold j c.
  pose proof (before_defaultRecursion_queuejobs_any resp s) as Hq.
  fold j c in Hq.
  destruct (String.eqb (Config.RecursionStrategy c) "greedy") eqn:Eg.
  - rewrite (greedy_is_not_default _ Eg). rewrite andb_false_r.
    cbn [when ret snd andb]. rewrite Hq. subst greedy default.
    rewrite (greedy_is_not_default _ Eg). cbn [andb].
    rewrite !andb_true_r, orb_false_r.
    by rewrite (andb_comm (Config.Recursion c)).
  - rewrite !andb_false_r in Hq. cbn [andb] in Hq. subst greedy.
    rewrite andb_false_r. cbn [orb].
    destruct (Config.Recursion c); cbn [andb when ret snd]; [|done].
    destruct (String.eqb (Config.RecursionStrategy c) "default");
      cbn [andb when ret snd]; [|done].
    subst default. cbn [andb].
    destruct (_ >? 0); cbn [andb when ret snd]; [|done].
    rewrite handleDefaultRecursionJob_queue. unfold recursion_target.
    rewrite before_defaultRecursion_Config,
      before_defaultRecursion_currentDepth, Hq.
    done.
Qed.

Lemma runTask_Config retried :
  preserves Config (runTask env input position retried).
Proof. unfold_engine. frame. Qed.

Lemma runTask_currentDepth retried :
  preserves currentDepth (runTask env input position retried).
Proof. unfold_engine. frame. Qed.

Lemma runTask_queuepos retried :
  preserves queuepos (runTask env input position retried).
Proof. unfold_engine. frame. Qed.

(** The queue after a task. *)
Lemma runTask_queuejobs retried s :
  let j := job s in
  let j' := job (snd (runTask env input position retried s)) in
  queuejobs j' = queuejobs j
  \/ (Config.Recursion (Config j) = true
      /\ (Config.RecursionStrategy (Config j) = "greedy"
          \/ Config.RecursionStrategy (Config j) = "default")
      /\ depth_allows j
      /\ exists resp,
           queuejobs j' = queuejobs j ++ [recursion_target j resp]).
Proof.
  intros j j'. subst j'.
  destruct (runTask_job_cases retried s) as [H|(resp & w & _ & H)];
    rewrite H.
  - left. by unfold incError; run_monad.
  - rewrite processResponse_queuejobs. cbn [job]. fold j.
    destruct (Config.Recursion (Config j)); cbn [andb]; [|by left].
    destruct (_ || _) eqn:Es; cbn [andb]; [|by left].
    destruct ((_ =? 0) || _) eqn:Ed; [|by left].
    right. split; [done|]. split.
    + apply orb_true_iff in Es as [Es|Es].
      * left. apply andb_true_iff in Es as [_ Es].
        by apply String.eqb_eq.
      * right. rewrite !andb_true_iff in Es. destruct Es as [[Es _] _].
        by apply String.eqb_eq.
    + split; [by apply depth_allows_test|]. by exists resp.
Qed.

(** X8: a task leaves the queue as it is or appends one target to it: it
    never removes or reorders an entry and never appends two, since the
    strategy is "greedy" or "default".  It appends only with [Recursion]
    on, one of these two strategies and depth budget left; the target has
    the depth [currentDepth + 1] and a url that ends in "/FUZZ".  The
    cursor, the current depth and the configuration are untouched. *)
Theorem runTask_appends_at_most_one_target (retried : bool) (s : State) :
  let j := job s in
  let j' := job (snd (runTask env input position retried s)) in
  (queuejobs j' = queuejobs j
   \/ (Config.Recursion (Config j) = true
       /\ (Config.RecursionStrategy (Config j) = "greedy"
           \/ Config.RecursionStrategy (Config j) = "default")
       /\ depth_allows j
       /\ exists url,
            queuejobs j'
            = queuejobs j
                ++ [QueueJob.mk (url +:+ "/FUZZ") (int_add (currentDepth j) 1)]))
  /\ queuepos j' = queuepos j
  /\ currentDepth j' = currentDepth j
  /\ Config j' = Config j.
Proof.
  intros j j'. split.
  - destruct (runTask_queuejobs retried s) as [H|(Hr & Hs & Hd & resp & H)];
      [by left|right].
    split; [done|]. split; [done|]. split; [done|].
    by exists (Request.Url (Response.Request resp)).
  - split; [apply runTask_queuepos|].
    split; [apply runTask_currentDepth|apply runTask_Config].
Qed.

End Worker.

Lemma runTask_counts_at_most_one_error_witness :
  let s' := snd (runTask Cases.env_a_failing (Fixtures.word "a") 0 false
                   Cases.state_three_errors) in
  0 <= SpuriousErrorCounter (job s') <= ErrorCounter (job s').
Proof.
  intros s'.
  exact (proj1 (proj2 (runTask_counts_at_most_one_error Cases.env_a_failing
                         (Fixtures.word "a") 0 false Cases.state_three_errors
                         ltac:(vm_compute; split; discriminate)
                         ltac:(vm_compute; reflexivity)))).
Defined.

Lemma response_ends_error_streak_witness :
  let s' := snd (runTask Cases.env_a (Fixtures.word "a") 0 false
                   Cases.state_three_errors) in
  SpuriousErrorCounter (job s') = 0 /\ ErrorCounter (job s') = 5.
Proof.
  intros s'.
  exact (proj1 (response_ends_error_streak Cases.env_a (Fixtures.word "a") 0
                  false Cases.state_three_errors eq_refl eq_refl
                  ltac:(vm_compute; discriminate)) eq_refl).
Defined.

(** ** The stop controller and the dispatcher *)

Section Controller.

Variable env : Env.

Lemma CheckStop_Config : preserves Config (CheckStop env).
Proof. unfold_engine. frame. Qed.
Lemma CheckStop_Counter : preserves Counter (CheckStop env).
Proof. unfold_engine. frame. Qed.
Lemma CheckStop_queuejobs : preserves queuejobs (CheckStop env).
Proof. unfold_engine. frame. Qed.
Lemma CheckStop_queuepos : preserves queuepos (CheckStop env).
Proof. unfold_engine. frame. Qed.
Lemma CheckStop_currentDepth : preserves currentDepth (CheckStop env).
Proof. unfold_engine. frame. Qed.
Lemma CheckStop_skipQueue : preserves skipQueue (CheckStop env).
Proof. unfold_engine. frame. Qed.
Lemma CheckStop_runnerCalls : preservesW runnerCalls (CheckStop env).
Proof. unfold_engine. frame. Qed.
Lemma CheckStop_replayCalls : preservesW replayCalls (CheckStop env).
Proof. unfold_engine. frame. Qed.

(** X9: [CheckStop] only ever stops.  It never sets [Running] or
    [RunningJob] again once they are cleared; if both are set after it, it
    changed nothing in the job and called nothing.  It never changes the
    configuration, the counters, the queue, its cursor, [skipQueue] or the
    current depth; the only calls it makes are cancellations, at most four;
    it takes no input and calls no runner. *)
Theorem CheckStop_only_stops (s : State) :
  let j := job s in
  let s' := snd (CheckStop env s) in
  let j' := job s' in
  (Running j = false -> Running j' = false)
  /\ (RunningJob j = false -> RunningJob j' = false)
  /\ (Running j' = true -> RunningJob j' = true ->
      j' = j /\ trace (world s') = trace (world s))
  /\ (Config j' = Config j /\ Counter j' = Counter j
      /\ ErrorCounter j' = ErrorCounter j
      /\ SpuriousErrorCounter j' = SpuriousErrorCounter j
      /\ Count403 j' = Count403 j /\ Count429 j' = Count429 j
      /\ queuejobs j' = queuejobs j /\ queuepos j' = queuepos j
      /\ skipQueue j' = skipQueue j /\ currentDepth j' = currentDepth j)
  /\ (exists k, (k <= 4)%nat
        /\ trace (world s') = trace (world s) ++ replicate k ConfigCancel)
  /\ inputPos (world s') = inputPos (world s)
  /\ runnerCalls (world s') = runnerCalls (world s).
Proof.
  intros j j' s'. subst j j' s'.
  unfold CheckStop, checkAdaptive, check403, checkErrors, check429,
    checkMaxTime, checkMaxTimeJob, Stop, Next, time_Now.
  destruct s as [j w]. run_branches; run_monad; run_job; run_world.
  all: split; [done|]; split; [done|].
  all: split; [try done; intros _ _; by destruct j|].
  all: split; [done|]; split; [|done].
  all: first
    [ exists 0%nat; split; [lia|]; by rewrite app_nil_r
    | exists 1%nat; split; [lia|]; by rewrite <- ?app_assoc
    | exists 2%nat; split; [lia|]; by rewrite <- ?app_assoc
    | exists 3%nat; split; [lia|]; by rewrite <- ?app_assoc
    | exists 4%nat; split; [lia|]; by rewrite <- ?app_assoc ].
Qed.

Lemma CheckStop_stays_stopped s :
  Running (job s) = false -> Running (job (snd (CheckStop env s))) = false.
Proof.
  unfold CheckStop, checkAdaptive, check403, checkErrors, check429,
    checkMaxTime, checkMaxTimeJob, Stop, Next, time_Now.
  intros H. run_branches; run_monad; run_job; done.
Qed.

Lemma CheckStop_cycles :
  preservesW (fun w => count_events is_Cycle (trace w)) (CheckStop env).
Proof. unfold_engine. frame_count. Qed.

(** A stopped job takes an input from the provider and leaves the loop. *)
Lemma dispatch_stopped (fuel : nat) (s : State) :
  Running (job s) = false ->
  (0 < fuel)%nat ->
  exists r s',
    dispatch env fuel s = Ok (r, s')
    /\ r = (if (inputPos (world s) + 1 <? len (wordlist env))
               && negb (skipQueue (job s))
            then LoopBreak (Error (job s')) else LoopEnd)
    /\ inputPos (world s') = inputPos (world s) + 1
    /\ runnerCalls (world s') = runnerCalls (world s)
    /\ replayCalls (world s') = replayCalls (world s)
    /\ Counter (job s') = Counter (job s)
    /\ count_events is_Finalize (trace (world s'))
       = count_events is_Finalize (trace (world s))
    /\ Running (job s') = false
    /\ queuejobs (job s') = queuejobs (job s)
    /\ queuepos (job s') = queuepos (job s)
    /\ count_events is_Cycle (trace (world s'))
       = count_events is_Cycle (trace (world s)).
Proof.
  intros Hstop Hfuel. destruct fuel as [|fuel]; [lia|].
  cbn [dispatch]. unfold Input_Next. run_monad. run_world.
  destruct ((inputPos (world s) + 1 <? len (wordlist env))
            && negb (skipQueue (job s))) eqn:E.
  2:{ eexists _, _. split; [done|]. by repeat split. }
  unfold dispatch_body. run_monad.
  set (s1 := mkState (job s) _).
  pose proof (CheckStop_stays_stopped s1 Hstop) as H1.
  pose proof (CheckStop_inputPos env s1) as H2.
  pose proof (CheckStop_runnerCalls s1) as H3.
  pose proof (CheckStop_replayCalls s1) as H4.
  pose proof (CheckStop_Counter s1) as H5.
  pose proof (CheckStop_finalize env s1) as H6.
  pose proof (CheckStop_queuejobs s1) as H7.
  pose proof (CheckStop_queuepos s1) as H8.
  pose proof (CheckStop_cycles s1) as H9.
  destruct (CheckStop env s1) as [u s2]. cbn [snd] in *.
  rewrite H1. cbn [negb].
  eexists _, _. split; [done|]. by repeat split.
Qed.

(** X10: once [Running] is cleared the loop of [startExecution] dispatches
    nothing more: it takes one input from the provider and ends, by [break]
    with the message of [Error] when there was an input and [skipQueue] is
    not set.  No call is made on the runner or the replay runner, [Counter]
    keeps its value, [Output.Finalize] is not called, [Running] stays
    cleared. *)
Theorem stopped_job_dispatches_nothing (fuel : nat) (s : State) :
  Running (job s) = false ->
  (0 < fuel)%nat ->
  exists r s',
    dispatch env fuel s = Ok (r, s')
    /\ r = (if (inputPos (world s) + 1 <? len (wordlist env))
               && negb (skipQueue (job s))
            then LoopBreak (Error (job s')) else LoopEnd)
    /\ inputPos (world s') = inputPos (world s) + 1
    /\ runnerCalls (world s') = runnerCalls (world s)
    /\ replayCalls (world s') = replayCalls (world s)
    /\ Counter (job s') = Counter (job s)
    /\ count_events is_Finalize (trace (world s'))
       = count_events is_Finalize (trace (world s))
    /\ Running (job s') = false.
Proof.
  intros Hstop Hfuel.
  destruct (dispatch_stopped fuel s Hstop Hfuel)
    as (r & s' & Hd & Hr & Hp & Hc & Hrc & Hcn & Hf & Hs & _).
  exists r, s'. by repeat split.
Qed.

Variables (input : InputMap) (position : Z).

Lemma runTask_skipQueue retried :
  preserves skipQueue (runTask env input position retried).
Proof. unfold_engine. frame. Qed.


End Controller.

Lemma stopped_job_dispatches_nothing_witness :
  exists r s',
    dispatch Fixtures.env_b 1 (Fixtures.state (Fixtures.conf [] []))
    = Ok (r, s')
    /\ runnerCalls (world s') = 0%nat.
Proof.
  destruct (stopped_job_dispatches_nothing Fixtures.env_b 1
              (Fixtures.state (Fixtures.conf [] [])) eq_refl
              ltac:(lia))
    as (r & s' & Hd & _ & _ & Hr & _).
  exists r, s'. split; [exact Hd|exact Hr].
Defined.

Section Limits.

Variable env : Env.






End Limits.


Section Sweep.

Variable env : Env.






End Sweep.



(** ** Invariants of a run *)

Section Invariant.

Variable env : Env.

(** [J] holds between two targets, [I] while a target is swept. *)
Variables I J : State -> Prop.

Hypothesis I_Input_Next : forall s, I s -> I (snd (Input_Next env s)).
Hypothesis I_dispatch_body : forall s, I s -> I (snd (dispatch_body env s)).
Hypothesis I_emit : forall e s, I s -> I (snd (emit e s)).
Hypothesis I_J : forall s, I s -> J s.
Hypothesis J_prepare : forall s j,
  J s -> prepareQueueJob (job s) = Some j ->
  I (snd ((Reset env true ;;; modify_job (set_RunningJob true))
            (mkState j (world s)))).

Lemma dispatch_invariant (fuel : nat) (s s' : State) (r : LoopExit) :
  I s -> dispatch env fuel s = Ok (r, s') -> I s'.
Proof.
  revert s. induction fuel as [|fuel IH]; intros s HI Hd; [done|].
  cbn [dispatch] in Hd.
  pose proof (I_Input_Next s HI) as H1.
  destruct (Input_Next env s) as [more s1]. cbn [snd] in H1.
  destruct (more && negb (skipQueue (job s1))).
  - pose proof (I_dispatch_body s1 H1) as H2.
    destruct (dispatch_body env s1) as [[e|] s2]; cbn [snd] in H2.
    + by injection Hd as <- <-.
    + by apply (IH s2).
  - by injection Hd as <- <-.
Qed.

Lemma startExecution_invariant (fuel : nat) (s s' : State) :
  I s -> startExecution env fuel s = Ok s' -> I s'.
Proof.
  intros HI. unfold startExecution. run_monad.
  assert (H0 : forall e, I (mkState (job s) (set_trace (trace (world s) ++ [e])
                                               (world s)))).
  { intros e. apply (I_emit e s HI). }
  assert (Hend : forall s1 r, I s1 ->
    match r with
    | LoopEnd => Ok (snd (updateProgress env s1))
    | LoopBreak msg =>
        Ok (snd ((updateProgress env ;;; emit (OutWarning msg)) s1))
    | LoopReturn msg => Ok (snd (emit (OutWarning msg) s1))
    end = Ok s' -> I s').
  { intros s1 r H1. destruct r; intros [= <-].
    - apply (I_emit _ s1 H1).
    - unfold updateProgress. run_monad.
      apply (I_emit (OutWarning deferred) _ (I_emit _ s1 H1)).
    - apply (I_emit _ s1 H1). }
  destruct (queuepos (job s) >? 1);
    match goal with
    | |- context [dispatch env fuel ?st] =>
        destruct (dispatch env fuel st) as [[r s1]| |] eqn:Hd; [|done|done];
        apply dispatch_invariant in Hd; [|done || apply H0]
    end; by apply Hend.
Qed.

Lemma drainQueue_invariant (fuel : nat) (s s' : State) :
  J s -> drainQueue env fuel s = Ok s' -> J s'.
Proof.
  revert s. induction fuel as [|fuel IH]; intros s HJ Hd; [done|].
  cbn [drainQueue] in Hd.
  destruct (jobsInQueue (job s)); [|by injection Hd as <-].
  destruct (prepareQueueJob (job s)) as [j|] eqn:Ep; [|done].
  pose proof (J_prepare s j HJ Ep) as H1.
  destruct ((Reset env true ;;; modify_job (set_RunningJob true))
              (mkState j (world s))) as [u s1].
  cbn [snd] in H1.
  destruct (startExecution env (S fuel) s1) as [s2| |] eqn:Es; [|done|done].
  apply startExecution_invariant in Es; [|done].
  apply (IH s2); [by apply I_J|done].
Qed.

End Invariant.

Section Depth.

Variable env : Env.

Lemma dispatch_body_Config : preserves Config (dispatch_body env).
Proof.
  unfold dispatch_body, Input_Value, Input_Position, Output_Finalize.
  repeat first
    [ apply CheckStop_Config | apply runTask_Config | frame_step ].
Qed.

Lemma dispatch_body_currentDepth : preserves currentDepth (dispatch_body env).
Proof.
  unfold dispatch_body, Input_Value, Input_Position, Output_Finalize.
  repeat first
    [ apply CheckStop_currentDepth | apply runTask_currentDepth | frame_step ].
Qed.

Lemma dispatch_body_queuepos : preserves queuepos (dispatch_body env).
Proof.
  unfold dispatch_body, Input_Value, Input_Position, Output_Finalize.
  repeat first
    [ apply CheckStop_queuepos | apply runTask_queuepos | frame_step ].
Qed.

(** The queue after a turn of the loop. *)
Lemma dispatch_body_queuejobs s :
  let j := job s in
  let j' := job (snd (dispatch_body env s)) in
  queuejobs j' = queuejobs j
  \/ (Config.Recursion (Config j) = true
      /\ depth_allows j
      /\ exists resp, queuejobs j' = queuejobs j ++ [recursion_target j resp]).
Proof.
  intros j j'. subst j j'.
  unfold dispatch_body, Input_Value, Input_Position, Output_Finalize.
  run_monad.
  pose proof (CheckStop_Config env s) as H1.
  pose proof (CheckStop_currentDepth env s) as H2.
  pose proof (CheckStop_queuejobs env s) as H3.
  destruct (CheckStop env s) as [u s1]. cbn [snd] in H1, H2, H3.
  destruct (negb (Running (job s1))); cbn [fst snd]; [by left|].
  match goal with
  | |- context [runTask env ?i ?p false ?st] =>
      pose proof (runTask_queuejobs env i p false st) as H4;
      destruct (runTask env i p false st) as [u2 s2]
  end.
  cbv zeta in H4. cbn [snd job] in H4. run_job in H4.
  unfold depth_allows, recursion_target in *. run_job in H4.
  rewrite H1, H2, H3 in H4.
  assert (Hs2 : forall b : bool,
    job (snd ((if b
               then fun s0 : State => (Some (LoopReturn (Error (job s2))), s0)
               else fun s0 : State => (None, s0)) s2)) = job s2).
  { by intros []. }
  rewrite Hs2.
  destruct H4 as [H4|(Hr & _ & Hd & resp & H4)]; [by left|right].
  split; [done|]. split; [done|]. by exists resp.
Qed.

Lemma prepareQueueJob_fields j j' :
  prepareQueueJob j = Some j' ->
  exists q, q ∈ queuejobs j
    /\ currentDepth j' = QueueJob.depth q
    /\ Config j' = Config.set_Url (QueueJob.Url q) (Config j)
    /\ queuejobs j' = queuejobs j
    /\ queuepos j' = int_add (queuepos j) 1
    /\ Running j' = Running j.
Proof.
  unfold prepareQueueJob, index.
  destruct (queuepos j <? 0); [done|].
  destruct (queuejobs j !! Z.to_nat (queuepos j)) as [q|] eqn:E; [|done].
  intros [= <-]. exists q. split; [by eapply list_elem_of_lookup_2|done].
Qed.

(** X14: with a bound [RecursionDepth > 0], every target of the queue has a
    depth between 0 and the bound when [Start] returns, if the targets that
    were queued before had; the bound itself is not changed by the run. *)
Theorem Start_keeps_depths_within_bound (fuel : nat) (s s' : State) :
  let D := Config.RecursionDepth (Config (job s)) in
  0 < D <= int_max ->
  Forall (fun q => 0 <= QueueJob.depth q <= D) (queuejobs (job s)) ->
  Start env fuel s = Ok s' ->
  Forall (fun q => 0 <= QueueJob.depth q <= D) (queuejobs (job s'))
  /\ Config.RecursionDepth (Config (job s')) = D.
Proof.
  intros D HD Hq HStart.
  set (J := fun s0 : State =>
    Config.RecursionDepth (Config (job s0)) = D
    /\ Forall (fun q => 0 <= QueueJob.depth q <= D) (queuejobs (job s0))).
  set (I := fun s0 : State => J s0 /\ 0 <= currentDepth (job s0) <= D).
  assert (Hinv : forall fuel s0 s1,
            J s0 -> drainQueue env fuel s0 = Ok s1 -> J s1).
  { apply (drainQueue_invariant env I J); subst I J; cbv beta.
    - intros s0 H. apply H.
    - intros s0 [[Hc Hall] Hcur]. split; [split|].
      + by rewrite dispatch_body_Config.
      + destruct (dispatch_body_queuejobs s0)
          as [->|(_ & Hallow & resp & ->)]; [done|].
        apply Forall_app. split; [done|]. apply Forall_singleton.
        unfold recursion_target. cbn [QueueJob.depth].
        destruct Hallow as [H0|Hlt]; [lia|]. rewrite Hc in Hlt.
        unfold int_add. rewrite wrap_id; [lia|].
        unfold in_int, int_min, int_max in *. lia.
      + by rewrite dispatch_body_currentDepth.
    - intros e s0 H. apply H.
    - intros s0 H. apply H.
    - intros s0 j [Hc Hall] Hp.
      apply prepareQueueJob_fields in Hp
        as (q & Hin & Hd & Hcf & Hqj & _ & _).
      unfold Reset, Input_Reset, time_Now. run_monad. run_job.
      split; [split|].
      + by rewrite Hcf.
      + by rewrite Hqj.
      + rewrite Forall_forall in Hall. rewrite Hd. by apply Hall. }
  unfold Start in HStart. revert HStart.
  match goal with
  | |- (let (_, _) := ?p in _) = _ -> _ =>
      assert (HJ : J (snd p)); [|destruct p as [u s0]]
  end.
  { subst J. cbv beta.
    unfold time_Now. run_branches; run_monad; run_job; split; try done.
    all: apply Forall_app; split; [done|].
    all: apply Forall_singleton; cbn [QueueJob.depth]; lia. }
  cbn [snd] in HJ.
  destruct (drainQueue env fuel s0) as [s1| |] eqn:Hd; [|done|done].
  apply Hinv in Hd; [|done]. destruct Hd as [Hc Hall].
  intros [= <-]. unfold Output_Finalize, Stop. run_monad.
  by destruct (FinalizeResult env _).
Qed.

(** X15: [Start] only appends to the queue.  When it returns, the queue is
    the one it found, followed by the root target ([Config.Url] at
    depth 0), followed by the targets found by recursion, whose urls end in
    "/FUZZ"; without [Recursion] there is none of the latter. *)
Theorem Start_only_appends_to_the_queue (fuel : nat) (s s' : State) :
  Start env fuel s = Ok s' ->
  let root := QueueJob.mk (Config.Url (Config (job s))) 0 in
  exists added,
    queuejobs (job s') = queuejobs (job s) ++ root :: added
    /\ (Config.Recursion (Config (job s)) = false -> added = [])
    /\ Forall (fun q => exists url, QueueJob.Url q = url +:+ "/FUZZ") added.
Proof.
  intros HStart root.
  set (q0 := queuejobs (job s) ++ [root]).
  set (J := fun s0 : State =>
    Config.Recursion (Config (job s0)) = Config.Recursion (Config (job s))
    /\ exists added,
         queuejobs (job s0) = q0 ++ added
         /\ (Config.Recursion (Config (job s)) = false -> added = [])
         /\ Forall (fun q => exists url, QueueJob.Url q = url +:+ "/FUZZ")
              added).
  assert (Hinv : forall fuel s0 s1,
            J s0 -> drainQueue env fuel s0 = Ok s1 -> J s1).
  { apply (drainQueue_invariant env J J); subst J; cbv beta.
    - intros s0 H. apply H.
    - intros s0 (Hc & added & Hq & Hoff & Hall). split.
      + by rewrite dispatch_body_Config.
      + destruct (dispatch_body_queuejobs s0)
          as [->|(Hrec & _ & resp & ->)]; [by exists added|].
        exists (added ++ [recursion_target (job s0) resp]).
        rewrite Hq, <- app_assoc. split; [done|]. split.
        * intros Hr. congruence.
        * apply Forall_app. split; [done|]. apply Forall_singleton.
          by eexists.
    - intros e s0 H. apply H.
    - done.
    - intros s0 j (Hc & added & Hq & Hoff & Hall) Hp.
      apply prepareQueueJob_fields in Hp
        as (q & Hin & Hd & Hcf & Hqj & _ & _).
      unfold Reset, Input_Reset, time_Now. run_monad. run_job.
      split; [by rewrite Hcf|]. exists added. by rewrite Hqj. }
  unfold Start in HStart. revert HStart.
  match goal with
  | |- (let (_, _) := ?p in _) = _ -> _ =>
      assert (HJ : J (snd p)); [|destruct p as [u s0]]
  end.
  { subst J q0 root. cbv beta.
    unfold time_Now. run_branches; run_monad; run_job; (split; [done|]);
      exists []; by rewrite app_nil_r. }
  cbn [snd] in HJ.
  destruct (drainQueue env fuel s0) as [s1| |] eqn:Hd; [|done|done].
  apply Hinv in Hd; [|done]. destruct Hd as (_ & added & Hq & Hoff & Hall).
  intros [= <-]. exists added. split; [|done].
  unfold Output_Finalize, Stop. run_monad.
  destruct (FinalizeResult env _); run_monad; run_job; rewrite Hq;
    subst q0; by rewrite <- app_assoc.
Qed.

End Depth.

Lemma Start_keeps_depths_within_bound_witness :
  exists s',
    Start Fixtures.env_dirs 4
      (Fixtures.state (Fixtures.conf_recursion "greedy" 2)) = Ok s'
    /\ Forall (fun q => 0 <= QueueJob.depth q <= 2) (queuejobs (job s')).
Proof.
  eexists. split; [vm_compute; reflexivity|].
  refine (proj1 (Start_keeps_depths_within_bound Fixtures.env_dirs 4
                   (Fixtures.state (Fixtures.conf_recursion "greedy" 2)) _
                   ltac:(vm_compute; split; [reflexivity|discriminate])
                   ltac:(constructor) _)).
  vm_compute. reflexivity.
Defined.

Lemma Start_only_appends_to_the_queue_witness :
  exists s',
    Start Fixtures.env_dirs 3
      (Fixtures.state (Fixtures.conf_recursion "default" 1)) = Ok s'
    /\ head (queuejobs (job s')) = Some (QueueJob.mk "http://h/FUZZ" 0).
Proof.
  eexists. split; [vm_compute; reflexivity|].
  match goal with
  | |- head (queuejobs (job ?s')) = _ =>
      destruct (Start_only_appends_to_the_queue Fixtures.env_dirs 3
                  (Fixtures.state (Fixtures.conf_recursion "default" 1)) s'
                  ltac:(vm_compute; reflexivity)) as (added & Hq & _)
  end.
  rewrite Hq. reflexivity.
Defined.

Section Drain.

Variable env : Env.





End Drain.



(** ** A run without stop conditions *)

Section Linear.

Variable env : Env.





End Linear.

Section LinearRun.

Variable env : Env.






End LinearRun.




(** ** The calibrator *)

Lemma results_snoc tr e :
  results (tr ++ [e])
  = results tr ++ match e with
                  | OutResult r => [Request.Url (Response.Request r)]
                  | _ => []
                  end.
Proof. unfold results. rewrite omap_app. by destruct e. Qed.

Section Calibrator.

Variable env : Env.

Lemma calibrate_loop_matches (cInputs : list string)
    (results : list Response.t) (c : Config.t) (s : State) :
  Config (job s) = c ->
  Forall (fun resp =>
            existsb (returns_true resp) (Config.Matchers c)
            && negb (existsb (returns_true resp) (Config.Filters c)) = true)
    results ->
  Forall (fun resp =>
            existsb (returns_true resp) (Config.Matchers c)
            && negb (existsb (returns_true resp) (Config.Filters c)) = true)
    (fst (fst (calibrate_loop env cInputs results s))).
Proof.
  revert results s. induction cInputs as [|input rest IH];
    intros results s Hc Hall; [done|].
  cbn [calibrate_loop]. unfold Runner_Prepare, Runner_Execute. run_monad.
  destruct (snd (RunnerProvider.Prepare _ _ _ _)).
  { by unfold incError; run_monad. }
  run_monad. destruct (snd (RunnerProvider.Execute _ _ _)); [done|].
  match goal with
  | |- context [isMatch ?r ?st] =>
      pose proof (isMatch_value r st) as Hv;
      pose proof (isMatch_job r st) as Hj;
      destruct (isMatch r st) as [m s2]
  end.
  cbn [fst snd job] in Hv, Hj. subst c.
  destruct m; run_monad.
  - apply IH; [by rewrite Hj|].
    apply Forall_app. split; [done|]. by apply Forall_singleton.
  - apply IH; [by rewrite Hj|done].
Qed.

(** X20: [CalibrateResponses] returns only responses that [isMatch]
    accepts: for each of them some matcher of the configuration returns
    true and no filter does. *)
Theorem CalibrateResponses_returns_matches_only (s : State) :
  let c := Config (job s) in
  let r := CalibrateResponses env s in
  Forall (fun resp => fst (isMatch resp s) = true) (fst (fst r))
  /\ Forall (fun resp =>
       (exists m, m ∈ Config.Matchers c
                  /\ FilterProvider.Filter m resp = (true, None))
       /\ (forall f, f ∈ Config.Filters c ->
                     FilterProvider.Filter f resp <> (true, None)))
       (fst (fst r)).
Proof.
  intros c r.
  assert (H : Forall (fun resp =>
            existsb (returns_true resp) (Config.Matchers c)
            && negb (existsb (returns_true resp) (Config.Filters c)) = true)
            (fst (fst r))).
  { subst r. unfold CalibrateResponses, calibrationInputs, time_Now.
    run_monad.
    destruct (len (Config.AutoCalibrationStrings (Config (job s))) <? 1);
      run_monad; by apply calibrate_loop_matches. }
  split.
  - eapply Forall_impl; [exact H|]. intros resp Hr. by rewrite isMatch_value.
  - eapply Forall_impl; [exact H|]. intros resp Hr. cbv beta in Hr.
    apply andb_true_iff in Hr as [Hm Hf]. split.
    + by apply existsb_returns_true.
    + intros f Hin Hx. apply negb_true_iff in Hf.
      assert (existsb (returns_true resp) (Config.Filters c) = true);
        [|congruence].
      apply existsb_returns_true. eauto.
Qed.

Lemma calibrate_loop_frame (cInputs : list string)
    (rs : list Response.t) (s : State) :
  let r := calibrate_loop env cInputs rs s in
  let s' := snd r in
  let n := runnerCalls (world s) in
  steering (job s') = steering (job s)
  /\ queuejobs (job s') = queuejobs (job s)
  /\ Counter (job s') = Counter (job s)
  /\ results (trace (world s')) = results (trace (world s))
  /\ (runnerCalls (world s') <= n + 2 * length cInputs)%nat
  /\ (length (fst (fst r)) <= length rs + length cInputs)%nat
  /\ (snd (fst r) = None ->
      job s' = job s
      /\ runnerCalls (world s') = (n + 2 * length cInputs)%nat)
  /\ (ErrorCounter (job s') = ErrorCounter (job s)
      \/ (ErrorCounter (job s') = int_add (ErrorCounter (job s)) 1
          /\ is_Some (snd (fst r)))).
Proof.
  revert rs s. induction cInputs as [|input rest IH]; intros rs s.
  { cbn. repeat split; try done; try lia; try by left. }
  cbn [calibrate_loop]. unfold Runner_Prepare, Runner_Execute. run_monad.
  destruct (snd (RunnerProvider.Prepare _ _ _ _)).
  { unfold incError; run_monad; run_job; run_world.
    rewrite !results_snoc, !app_nil_r. cbn [length].
    repeat split; try done; try lia. right. split; [done|by eexists]. }
  run_monad. destruct (snd (RunnerProvider.Execute _ _ _)).
  { cbn [fst snd job world length]. run_world.
    repeat split; try done; try lia; try by left. }
  unfold isMatch. run_monad.
  destruct (negb _); [|destruct (filters_loop _ _)]; run_monad; run_world;
    match goal with
    | |- context [calibrate_loop env rest ?rs' ?st] =>
        specialize (IH rs' st);
        destruct (calibrate_loop env rest rs' st) as [[rs2 err] s3]
    end;
    cbv zeta in IH; cbn [fst snd job world] in *; run_world in IH;
    rewrite !results_snoc, !app_nil_r in IH;
    rewrite ?length_app in IH; cbn [length] in *;
    destruct IH as (H1 & H2 & H3 & H4 & H5 & H6 & H7 & H8);
    (split; [done|]); (split; [done|]); (split; [done|]); (split; [done|]);
    (split; [lia|]); (split; [lia|]);
    (split; [intros Hn; destruct (H7 Hn) as [Hj Hc]; split; [done|lia]
            |done]).
Qed.

(** X21: calibration is no part of the run.  [CalibrateResponses] changes
    neither the configuration, [Counter], the queue, its cursor nor
    [Running], and it reports no result.  It never retries: it makes at
    most two calls on the runner for each calibration input (four inputs
    unless [AutoCalibrationStrings] are given), and exactly two for each
    when it returns without an error, with the job as it was.  It returns
    at most one response for each input.  It counts at most one error, and
    only when it returns an error. *)
Theorem CalibrateResponses_leaves_the_run_alone (s : State) :
  let r := CalibrateResponses env s in
  let s' := snd r in
  let acs := Config.AutoCalibrationStrings (Config (job s)) in
  let inputs := if len acs <? 1 then 4%nat else length acs in
  (Config (job s') = Config (job s) /\ Counter (job s') = Counter (job s)
   /\ queuejobs (job s') = queuejobs (job s)
   /\ queuepos (job s') = queuepos (job s)
   /\ Running (job s') = Running (job s))
  /\ results (trace (world s')) = results (trace (world s))
  /\ (runnerCalls (world s') <= runnerCalls (world s) + 2 * inputs)%nat
  /\ (length (fst (fst r)) <= inputs)%nat
  /\ (snd (fst r) = None ->
      job s' = job s
      /\ runnerCalls (world s') = (runnerCalls (world s) + 2 * inputs)%nat)
  /\ (ErrorCounter (job s') = ErrorCounter (job s)
      \/ (ErrorCounter (job s') = int_add (ErrorCounter (job s)) 1
          /\ is_Some (snd (fst r)))).
Proof.
  intros r s' acs inputs. subst r s' inputs acs.
  unfold CalibrateResponses, calibrationInputs, time_Now. run_monad.
  destruct (len (Config.AutoCalibrationStrings (Config (job s))) <? 1);
    run_monad;
    match goal with
    | |- context [calibrate_loop env ?ci ?rs' ?st] =>
        pose proof (calibrate_loop_frame ci rs' st) as H;
        cbv zeta in H;
        destruct (calibrate_loop env ci rs' st) as [[rs2 err] s3]
    end;
    cbn [fst snd job world length] in *; run_world in H;
    destruct H as (H1 & H2 & H3 & H4 & H5 & H6 & H7 & H8);
    unfold steering in H1; injection H1 as HC HR _ _ HP _ _ _;
    (split; [done|]); (split; [done|]); (split; [lia|]); (split; [lia|]);
    (split; [intros Hn; destruct (H7 Hn) as [Hj Hc]; split; [done|lia]
            |done]).
Qed.

End Calibrator.

(** ** The pause barrier *)

Lemma Barrier_Pause_engine b b' :
  Barrier.Pause b = Some b' -> engine b' = snd (Pause (engine b)).
Proof.
  unfold Barrier.Pause, Pause. run_monad.
  destruct (negb (Paused (job (engine b)))).
  - destruct (WaitGroup.Add 1 (pauseWg b)); [|done]. by intros [= <-].
  - intros [= <-]. by destruct (engine b).
Qed.

Lemma Barrier_Resume_engine b b' :
  Barrier.Resume b = Some b' -> engine b' = snd (Resume (engine b)).
Proof.
  unfold Barrier.Resume, Resume. run_monad.
  destruct (Paused (job (engine b))).
  - destruct (WaitGroup.Done (pauseWg b)); [|done]. by intros [= <-].
  - intros [= <-]. by destruct (engine b).
Qed.

Lemma Barrier_call_consistent c b :
  Barrier.consistent b ->
  exists b', Barrier.call c b = Some b' /\ Barrier.consistent b'
    /\ job (engine b')
       = set_Paused (match c with Barrier.CallPause => true
                                | Barrier.CallResume => false end)
           (job (engine b)).
Proof.
  unfold Barrier.consistent. intros H.
  destruct c; cbn [Barrier.call]; unfold Barrier.Pause, Barrier.Resume.
  - destruct (Paused (job (engine b))) eqn:E; cbn [negb].
    + exists b. rewrite E. split; [done|]. split; [done|].
      destruct (engine b) as [[] w]. cbn in *. by subst.
    + rewrite H. eexists. split; [reflexivity|]. by split.
  - destruct (Paused (job (engine b))) eqn:E.
    + rewrite H. eexists. split; [reflexivity|]. by split.
    + exists b. rewrite E. split; [done|]. split; [done|].
      destruct (engine b) as [[] w]. cbn in *. by subst.
Qed.

(** X22: [Pause] and [Resume], called in any order and any number of
    times, never panic on the wait group, and keep its counter at 1 while
    the job is paused and at 0 otherwise: [Wait()] passes iff the job is not
    paused.  A call repeated is a call made once: the job is paused iff
    the last call was [Pause]. *)
Theorem Pause_Resume_keep_the_barrier_consistent (cs : list Barrier.Call)
    (b : Pausable) :
  Barrier.consistent b ->
  exists b',
    Barrier.calls cs b = Some b'
    /\ Barrier.consistent b'
    /\ WaitGroup.open (pauseWg b') = negb (Paused (job (engine b')))
    /\ Paused (job (engine b'))
       = match last cs with
         | Some Barrier.CallPause => true
         | Some Barrier.CallResume => false
         | None => Paused (job (engine b))
         end.
Proof.
  revert b. induction cs as [|c cs IH]; intros b Hb.
  - exists b. split; [done|]. split; [done|]. split; [|done].
    unfold Barrier.consistent in Hb. rewrite Hb.
    by destruct (Paused (job (engine b))).
  - destruct (Barrier_call_consistent c b Hb) as (b1 & Hc & Hb1 & Hj).
    destruct (IH b1 Hb1) as (b' & Hcs & Hb' & Ho & Hp).
    exists b'. cbn [Barrier.calls]. rewrite Hc.
    split; [done|]. split; [done|]. split; [done|].
    rewrite Hp. destruct cs as [|c' cs'].
    + cbn. rewrite Hj. by destruct c.
    + change (last (c :: c' :: cs')) with (last (c' :: cs')).
      destruct (last (c' :: cs')) as [[]|] eqn:El; try done.
      by apply last_None in El.
Qed.

(** X23: a signal that arrives while the job is paused opens the barrier
    and stops the job, but leaves [Paused] set, with the counter of the
    wait group at 0.  A [Resume] after it panics on the wait group
    (negative counter), and so does a second signal. *)
Theorem interrupt_while_paused_breaks_the_barrier (b : Pausable) :
  Barrier.consistent b ->
  Paused (job (engine b)) = true ->
  exists b',
    Barrier.interrupt b = Some b'
    /\ pauseWg b' = 0
    /\ Paused (job (engine b')) = true
    /\ Running (job (engine b')) = false
    /\ Error (job (engine b')) = Barrier.msgInterrupt
    /\ ~ Barrier.consistent b'
    /\ Barrier.Resume b' = None
    /\ Barrier.interrupt b' = None.
Proof.
  unfold Barrier.consistent. intros Hb Hp. rewrite Hp in Hb.
  unfold Barrier.interrupt at 1. run_monad. run_job. rewrite Hp, Hb.
  eexists. split; [reflexivity|]. cbn [pauseWg engine]. unfold Stop.
  run_monad. run_job. rewrite Hp.
  split; [done|]. split; [done|]. split; [done|]. split; [done|].
  split; [done|].
  unfold Barrier.Resume, Barrier.interrupt. cbn [engine pauseWg].
  run_monad. run_job. by rewrite Hp.
Qed.

Lemma Pause_Resume_keep_the_barrier_consistent_witness :
  exists b',
    Barrier.calls [Barrier.CallPause; Barrier.CallPause; Barrier.CallResume;
                   Barrier.CallResume] Cases.running = Some b'
    /\ pauseWg b' = 0
    /\ Paused (job (engine b')) = false.
Proof.
  destruct (Pause_Resume_keep_the_barrier_consistent
              [Barrier.CallPause; Barrier.CallPause; Barrier.CallResume;
               Barrier.CallResume] Cases.running eq_refl)
    as (b' & Hc & Hb & _ & Hp).
  exists b'. split; [exact Hc|]. unfold Barrier.consistent in Hb.
  rewrite Hb, Hp. split; reflexivity.
Defined.

Lemma interrupt_while_paused_breaks_the_barrier_witness :
  exists b',
    Barrier.interrupt Cases.paused = Some b'
    /\ Barrier.Resume b' = None.
Proof.
  destruct (interrupt_while_paused_breaks_the_barrier Cases.paused
              eq_refl eq_refl)
    as (b' & Hi & _ & _ & _ & _ & _ & Hr & _).
  exists b'. split; [exact Hi|exact Hr].
Defined.

(** ** The output file *)

Lemma append_nil_r (s : string) : s +:+ "" = s.
Proof.
  induction s as [|c s IH]; [done|].
  change (String c (s +:+ "") = String c s). by rewrite IH.
Qed.

Lemma length_append (a b : string) :
  String.length (a +:+ b) = (String.length a + String.length b)%nat.
Proof.
  induction a as [|c a IH]; [done|].
  change (S (String.length (a +:+ b))
          = S (String.length a + String.length b)).
  by rewrite IH.
Qed.

Lemma concat_cons (x : string) (l : list string) :
  String.concat "" (x :: l) = x +:+ String.concat "" l.
Proof. destruct l; [by rewrite append_nil_r|done]. Qed.

Lemma concat_app (l1 l2 : list string) :
  String.concat "" (l1 ++ l2) = String.concat "" l1 +:+ String.concat "" l2.
Proof.
  induction l1 as [|x l1 IH]; [done|].
  change ((x :: l1) ++ l2) with (x :: (l1 ++ l2)).
  by rewrite !concat_cons, IH, append_assoc.
Qed.

Lemma writeJSON_loop_app (res : list Result.t) (jsonRes : list string) :
  writeJSON_loop res jsonRes = jsonRes ++ writeJSON_loop res [].
Proof.
  revert jsonRes. induction res as [|r res IH]; intros jsonRes.
  - by rewrite app_nil_r.
  - cbn [writeJSON_loop]. rewrite (IH ((jsonRes ++ _) ++ _)).
    rewrite (IH (([] ++ _) ++ _)). by rewrite <- !app_assoc.
Qed.

(** The bytes that [writeJSON] writes for a list of results. *)
Lemma outBytes_cons (r : Result.t) (res : list Result.t) :
  String.concat "" (writeJSON_loop (r :: res) [])
  = Result.Url r +:+ nl +:+ String.concat "" (writeJSON_loop res []).
Proof.
  cbn [writeJSON_loop]. rewrite writeJSON_loop_app.
  rewrite concat_app. cbn [app]. rewrite !concat_cons.
  cbn [String.concat]. by rewrite append_nil_r, append_assoc.
Qed.

Lemma outBytes_app (res1 res2 : list Result.t) :
  String.concat "" (writeJSON_loop (res1 ++ res2) [])
  = String.concat "" (writeJSON_loop res1 [])
    +:+ String.concat "" (writeJSON_loop res2 []).
Proof.
  induction res1 as [|r res1 IH]; [done|].
  change ((r :: res1) ++ res2) with (r :: (res1 ++ res2)).
  by rewrite !outBytes_cons, IH, !append_assoc.
Qed.

(** X24: [writeJSON] appends.  When the system calls succeed, two calls on
    the same file leave the file that one call with both lists of results
    leaves: what the file held before, then the bytes of the first list,
    then those of the second.  The configuration plays no part. *)
Theorem writeJSON_appends_across_calls (os : OS) (filename : string)
    (c1 c2 c : Config.t) (res1 res2 : list Result.t) (fs : gmap string string) :
  openError os filename = None ->
  (forall b, writeError os filename b = None) ->
  let r1 := writeJSON os filename c1 res1 fs in
  let r2 := writeJSON os filename c2 res2 (fst r1) in
  snd r1 = None /\ snd r2 = None
  /\ fst r2 = fst (writeJSON os filename c (res1 ++ res2) fs)
  /\ fst r2 !! filename
     = Some (default ""%string (fs !! filename)
               +:+ String.concat "" (writeJSON_loop res1 [])
               +:+ String.concat "" (writeJSON_loop res2 [])).
Proof.
  intros Ho Hw r1 r2. subst r1 r2. unfold writeJSON.
  rewrite Ho, !Hw. cbn [fst snd].
  rewrite lookup_insert_eq. cbn [from_option]. cbv [id].
  rewrite insert_insert_eq, outBytes_app, ?append_assoc.
  split; [done|]. split; [done|]. split; [done|].
  by rewrite lookup_insert_eq.
Qed.

Lemma writeJSON_appends_across_calls_witness :
  let c := Fixtures.conf [] [] in
  let fs1 := fst (writeJSON os_ok "out.json" c [Cases.result_a] ∅) in
  fst (writeJSON os_ok "out.json" c [Cases.result_b] fs1)
  = fst (writeJSON os_ok "out.json" c [Cases.result_a; Cases.result_b] ∅).
Proof.
  intros c fs1.
  exact (proj1 (proj2 (proj2 (writeJSON_appends_across_calls os_ok "out.json"
                                c c c [Cases.result_a] [Cases.result_b] ∅
                                eq_refl (fun _ => eq_refl))))).
Defined.

Lemma lines_from_one_line (s line rest : string) :
  one_line s = true ->
  lines_from (s +:+ nl +:+ rest) line = (line +:+ s) :: lines_from rest "".
Proof.
  revert line. induction s as [|c s IH]; intros line Hs.
  - by rewrite append_nil_r.
  - cbn [one_line] in Hs. apply andb_true_iff in Hs as [Hc Hs].
    apply negb_true_iff in Hc.
    change (String c s +:+ nl +:+ rest) with (String c (s +:+ nl +:+ rest)).
    cbn [lines_from]. rewrite Hc. rewrite IH by done.
    by rewrite append_assoc.
Qed.

Lemma lines_outBytes (res : list Result.t) :
  Forall (fun r => one_line (Result.Url r) = true) res ->
  lines (String.concat "" (writeJSON_loop res [])) = map Result.Url res.
Proof.
  unfold lines. induction res as [|r res IH]; intros Hall; [done|].
  apply Forall_cons in Hall as [Hr Hall].
  rewrite outBytes_cons, lines_from_one_line by done.
  cbn [map]. by rewrite IH.
Qed.

(** X25: what [writeJSON] writes into a new file can be read back: when no
    url holds a newline, the lines of the file are the urls of the
    results, in order; the file has one byte more than the length of the
    url for each result. *)
Theorem writeJSON_lines_are_the_urls (os : OS) (filename : string)
    (c : Config.t) (res : list Result.t) (fs : gmap string string) :
  Forall (fun r => one_line (Result.Url r) = true) res ->
  fs !! filename = None ->
  snd (writeJSON os filename c res fs) = None ->
  exists text,
    fst (writeJSON os filename c res fs) !! filename = Some text
    /\ lines text = map Result.Url res
    /\ String.length text
       = (list_sum (map (fun r => S (String.length (Result.Url r))) res)).
Proof.
  intros Hall Hnew. unfold writeJSON. rewrite Hnew. cbn [from_option].
  destruct (openError os filename); [done|].
  destruct (writeError os filename _) as [[n e]|]; [done|].
  intros _. cbn [fst]. rewrite lookup_insert_eq. eexists. split; [done|].
  change (""%string +:+ ?x) with x.
  split; [by apply lines_outBytes|].
  clear. induction res as [|r res IH]; [done|].
  rewrite outBytes_cons, !length_append. cbn [map]. cbn [list_sum foldr].
  change (list_sum ?l) with (foldr Nat.add 0%nat l) in IH.
  rewrite <- IH. change (String.length nl) with 1%nat. lia.
Qed.

Lemma writeJSON_lines_are_the_urls_witness :
  exists text,
    fst (writeJSON os_ok "out.json" (Fixtures.conf [] [])
           [Cases.result_a; Cases.result_b] ∅) !! "out.json"%string
    = Some text
    /\ lines text = ["http://h/a"%string; "http://h/b"%string].
Proof.
  destruct (writeJSON_lines_are_the_urls os_ok "out.json"
              (Fixtures.conf [] []) [Cases.result_a; Cases.result_b] ∅)
    as (text & Ht & Hl & _).
  - repeat constructor.
  - apply lookup_empty.
  - reflexivity.
  - exists text. split; [exact Ht|exact Hl].
Defined.

Lemma prefix_append (a b : string) : String.prefix a (a +:+ b) = true.
Proof.
  induction a as [|c a IH]; [by destruct b|].
  change (String.prefix (String c a) (String c (a +:+ b)) = true).
  cbn [String.prefix]. destruct (Ascii.ascii_dec c c); [exact IH|congruence].
Qed.

Lemma prefix_refl (a : string) : String.prefix a a = true.
Proof.
  pose proof (prefix_append a "") as H. by rewrite append_nil_r in H.
Qed.

(** X26: [writeJSON] never truncates and touches one file.  Every other
    file is as before; what the file held before is a prefix of what it
    holds after, also when [Write] fails half-way; when the file cannot be
    opened nothing changes; when it can, the file exists afterwards, also
    for an empty list of results. *)
Theorem writeJSON_never_truncates (os : OS) (filename : string)
    (c : Config.t) (res : list Result.t) (fs : gmap string string) :
  let fs' := fst (writeJSON os filename c res fs) in
  (forall other, other <> filename -> fs' !! other = fs !! other)
  /\ (forall old, fs !! filename = Some old ->
      exists new, fs' !! filename = Some new
                  /\ String.prefix old new = true)
  /\ (is_Some (openError os filename) -> fs' = fs)
  /\ (openError os filename = None -> is_Some (fs' !! filename)).
Proof.
  intros fs'. subst fs'. unfold writeJSON.
  destruct (openError os filename) as [e|] eqn:Eo; cbn [fst].
  { split; [done|]. split; [|done].
    intros old ->. exists old. split; [done|apply prefix_refl]. }
  destruct (writeError os filename _) as [[n e]|] eqn:Ew; cbn [fst].
  - split; [by intros; rewrite lookup_insert_ne|].
    split.
    { intros old ->. rewrite lookup_insert_eq. eexists. split; [done|].
      apply prefix_append. }
    split; [by intros []|]. by rewrite lookup_insert_eq.
  - split; [by intros; rewrite lookup_insert_ne|].
    split.
    { intros old ->. rewrite lookup_insert_eq. eexists. split; [done|].
      apply prefix_append. }
    split; [by intros []|]. by rewrite lookup_insert_eq.
Qed.
